(** * xTools serial terminal: the front-end logic of [src/App.vue]

    A shallow embedding of the [<script setup>] block of the Vue component
    and of the event bindings of its template, followed by the properties
    established about it.

    - JavaScript strings are sequences of UTF-16 code units ([list Z]).
    - JavaScript numbers that the component handles are integers ([Z]);
      [NaN] is [None] where it can arise.
    - The reactive state (the [ref]s and [pollInterval]) is one record.
    - An [async] handler is a [task]: a tree whose nodes are the
      observable effects, the synchronous queries to the environment and
      the [await invoke(...)] suspension points. *)

From Stdlib Require Import String Ascii List ZArith Lia Bool.
Import ListNotations.
Local Open Scope Z_scope.

(* ================================================================== *)
(** ** JavaScript strings *)
(* ================================================================== *)

Definition jsstring : Type := list Z.

(** Code units of an ASCII literal. *)
Fixpoint js (s : string) : jsstring :=
  match s with
  | EmptyString => []
  | String a rest => Z.of_N (N_of_ascii a) :: js rest
  end.

(** [a === b] on strings. *)
Fixpoint str_eqb (a b : jsstring) : bool :=
  match a, b with
  | [], [] => true
  | x :: a', y :: b' => (x =? y) && str_eqb a' b'
  | _, _ => false
  end.

(** [a <= b] on strings: lexicographic on code units. *)
Fixpoint str_leb (a b : jsstring) : bool :=
  match a, b with
  | [], _ => true
  | _ :: _, [] => false
  | x :: a', y :: b' =>
      if x <? y then true else if y <? x then false else str_leb a' b'
  end.

(** [a >= b] on strings. *)
Definition str_geb (a b : jsstring) : bool := str_leb b a.

(** [!s] for a string: only the empty string is falsy. *)
Definition falsy (s : jsstring) : bool :=
  match s with [] => true | _ => false end.

(** [s.charCodeAt(i)]; [None] is [NaN]. *)
Definition charCodeAt (s : jsstring) (i : nat) : option Z := nth_error s i.

(** [ToUint16]. *)
Definition toUint16 (n : Z) : Z := n mod 65536.

(** [String.fromCharCode(n)]; [NaN] converts to code unit 0. *)
Definition fromCharCode (n : option Z) : jsstring :=
  match n with
  | Some v => [toUint16 v]
  | None => [0]
  end.

Definition isHighSurrogate (c : Z) : bool := (55296 <=? c) && (c <=? 56319).
Definition isLowSurrogate (c : Z) : bool := (56320 <=? c) && (c <=? 57343).

(** [Array.from(str)]: the string iterator yields one element per code
    point, so a surrogate pair stays together in one element. *)
Fixpoint Array_from (s : jsstring) : list jsstring :=
  match s with
  | [] => []
  | c :: rest =>
      match rest with
      | d :: rest' =>
          if isHighSurrogate c && isLowSurrogate d
          then [c; d] :: Array_from rest'
          else [c] :: Array_from rest
      | [] => [[c]]
      end
  end.

(** Digit characters of [Number.prototype.toString(radix)]:
    [0-9] then lowercase [a-z]. *)
Definition digitChar (d : Z) : Z := if d <? 10 then 48 + d else 87 + d.

Fixpoint digitsFuel (fuel : nat) (radix n : Z) (acc : jsstring) : jsstring :=
  match fuel with
  | O => acc
  | S fuel' =>
      let acc' := digitChar (n mod radix) :: acc in
      if n / radix =? 0 then acc' else digitsFuel fuel' radix (n / radix) acc'
  end.

(** The number of binary digits of [n] bounds its digits in any radix. *)
Definition digitsBound (n : Z) : nat := S (Z.to_nat (Z.log2 n)).

(** [n.toString(radix)] for an integer [n], [2 <= radix <= 36]. *)
Definition Number_toString (radix n : Z) : jsstring :=
  if n <? 0
  then 45 :: digitsFuel (digitsBound (- n)) radix (- n) []
  else digitsFuel (digitsBound n) radix n [].

(** [s.repeat(n)] truncated to [len] code units, as [padStart] fills. *)
Fixpoint fill (len : nat) (pad cur : jsstring) : jsstring :=
  match len with
  | O => []
  | S len' =>
      match cur with
      | c :: cur' => c :: fill len' pad cur'
      | [] =>
          match pad with
          | c :: pad' => c :: fill len' pad pad'
          | [] => []
          end
      end
  end.

(** [s.padStart(target, pad)]. *)
Definition padStart (target : nat) (pad s : jsstring) : jsstring :=
  if (target <=? length s)%nat then s
  else match pad with
       | [] => s
       | _ => fill (target - length s) pad pad ++ s
       end.

(** [parts.join(sep)]. *)
Fixpoint join (sep : jsstring) (parts : list jsstring) : jsstring :=
  match parts with
  | [] => []
  | [p] => p
  | p :: rest => p ++ sep ++ join sep rest
  end.

(** [s.startsWith(p)]. *)
Fixpoint startsWith (s p : jsstring) : bool :=
  match p, s with
  | [], _ => true
  | _ :: _, [] => false
  | y :: p', x :: s' => (x =? y) && startsWith s' p'
  end.

(** [s.includes(sub)]. *)
Fixpoint includes (s sub : jsstring) : bool :=
  startsWith s sub ||
  match s with
  | [] => false
  | _ :: s' => includes s' sub
  end.

(** [s.split(" ")[0]]: the part before the first space. *)
Fixpoint beforeSpace (s : jsstring) : jsstring :=
  match s with
  | [] => []
  | c :: s' => if c =? 32 then [] else c :: beforeSpace s'
  end.

(** [s.replace(/[:.]/g, "-")]. *)
Definition replaceColonDot (s : jsstring) : jsstring :=
  map (fun c => if (c =? 58) || (c =? 46) then 45 else c) s.

(** Case mapping of one Basic Latin code unit. *)
Definition lowerAscii (c : Z) : Z :=
  if (65 <=? c) && (c <=? 90) then c + 32 else c.
Definition upperAscii (c : Z) : Z :=
  if (97 <=? c) && (c <=? 122) then c - 32 else c.

Definition isAscii (c : Z) : Prop := 0 <= c < 128.
Definition isAsciib (c : Z) : bool := (0 <=? c) && (c <? 128).

(** [String.prototype.toLowerCase] and [toUpperCase] follow the Unicode
    case tables of the JavaScript engine, which are not part of the
    component.  They are taken as an interface; all that is assumed is
    their behaviour on strings of Basic Latin characters. *)
Class Unicode : Type := {
  toLowerCase : jsstring -> jsstring;
  toUpperCase : jsstring -> jsstring;
  toLowerCase_ascii :
    forall s, Forall isAscii s -> toLowerCase s = map lowerAscii s;
  toUpperCase_ascii :
    forall s, Forall isAscii s -> toUpperCase s = map upperAscii s
}.

(** The case mapping that leaves every code unit outside Basic Latin
    unchanged; used to evaluate the component on concrete inputs. *)
Instance basicLatin : Unicode := {|
  toLowerCase := map lowerAscii;
  toUpperCase := map upperAscii;
  toLowerCase_ascii := fun s _ => eq_refl;
  toUpperCase_ascii := fun s _ => eq_refl
|}.

(* ================================================================== *)
(** ** Types of the component *)
(* ================================================================== *)

Record PortInfo : Type := {
  name : jsstring;
  description : jsstring
}.

Record DataEntry : Type := {
  timestamp : jsstring;
  data : jsstring;
  hex : jsstring;
  direction : jsstring
}.

Record SerialConfig : Type := {
  port : jsstring;
  baud_rate : Z;
  custom_baud_rate : Z;
  data_bits : Z;
  stop_bits : Z;
  parity : jsstring;
  hex_mode : bool;
  append_newline : bool;
  newline_type : jsstring
}.

Record DisplayConfig : Type := {
  auto_scroll : bool;
  show_timestamp : bool;
  show_hex : bool;
  font_size : Z;
  terminal_mode : bool
}.

Record AppConfig : Type := {
  serial : SerialConfig;
  display : DisplayConfig
}.

(** The [ref]s of the component and the module variable [pollInterval]
    ([number | null]; [None] is [null]). *)
Record State : Type := {
  ports : list PortInfo;
  connected : bool;
  dataLog : list DataEntry;
  sendText : jsstring;
  searchText : jsstring;
  showSearch : bool;
  searchIndex : Z;
  customBaudRate : bool;
  config : AppConfig;
  pollInterval : option Z;
  terminalBuffer : jsstring
}.

(** The initial value of [config]. *)
Definition defaultConfig : AppConfig := {|
  serial := {|
    port := js "";
    baud_rate := 115200;
    custom_baud_rate := 0;
    data_bits := 8;
    stop_bits := 1;
    parity := js "none";
    hex_mode := false;
    append_newline := true;
    newline_type := js "crlf"
  |};
  display := {|
    auto_scroll := true;
    show_timestamp := true;
    show_hex := false;
    font_size := 14;
    terminal_mode := false
  |}
|}.

(** The state right after [setup]. *)
Definition initialState : State := {|
  ports := [];
  connected := false;
  dataLog := [];
  sendText := js "";
  searchText := js "";
  showSearch := false;
  searchIndex := -1;
  customBaudRate := false;
  config := defaultConfig;
  pollInterval := None;
  terminalBuffer := js ""
|}.

Definition baudRates : list Z :=
  [300; 1200; 2400; 4800; 9600; 19200; 38400; 57600; 115200; 230400;
   460800; 921600].
Definition parityOptions : list jsstring := [js "none"; js "odd"; js "even"].
Definition newlineOptions : list jsstring := [js "crlf"; js "lf"; js "cr"].

(** *** Assignments to one [ref] *)

Definition set_ports (v : list PortInfo) (s : State) : State :=
  {| ports := v; connected := connected s; dataLog := dataLog s;
     sendText := sendText s; searchText := searchText s;
     showSearch := showSearch s; searchIndex := searchIndex s;
     customBaudRate := customBaudRate s; config := config s;
     pollInterval := pollInterval s; terminalBuffer := terminalBuffer s |}.

Definition set_connected (v : bool) (s : State) : State :=
  {| ports := ports s; connected := v; dataLog := dataLog s;
     sendText := sendText s; searchText := searchText s;
     showSearch := showSearch s; searchIndex := searchIndex s;
     customBaudRate := customBaudRate s; config := config s;
     pollInterval := pollInterval s; terminalBuffer := terminalBuffer s |}.

Definition set_dataLog (v : list DataEntry) (s : State) : State :=
  {| ports := ports s; connected := connected s; dataLog := v;
     sendText := sendText s; searchText := searchText s;
     showSearch := showSearch s; searchIndex := searchIndex s;
     customBaudRate := customBaudRate s; config := config s;
     pollInterval := pollInterval s; terminalBuffer := terminalBuffer s |}.

Definition set_sendText (v : jsstring) (s : State) : State :=
  {| ports := ports s; connected := connected s; dataLog := dataLog s;
     sendText := v; searchText := searchText s;
     showSearch := showSearch s; searchIndex := searchIndex s;
     customBaudRate := customBaudRate s; config := config s;
     pollInterval := pollInterval s; terminalBuffer := terminalBuffer s |}.

Definition set_searchText (v : jsstring) (s : State) : State :=
  {| ports := ports s; connected := connected s; dataLog := dataLog s;
     sendText := sendText s; searchText := v;
     showSearch := showSearch s; searchIndex := searchIndex s;
     customBaudRate := customBaudRate s; config := config s;
     pollInterval := pollInterval s; terminalBuffer := terminalBuffer s |}.

Definition set_showSearch (v : bool) (s : State) : State :=
  {| ports := ports s; connected := connected s; dataLog := dataLog s;
     sendText := sendText s; searchText := searchText s;
     showSearch := v; searchIndex := searchIndex s;
     customBaudRate := customBaudRate s; config := config s;
     pollInterval := pollInterval s; terminalBuffer := terminalBuffer s |}.

Definition set_searchIndex (v : Z) (s : State) : State :=
  {| ports := ports s; connected := connected s; dataLog := dataLog s;
     sendText := sendText s; searchText := searchText s;
     showSearch := showSearch s; searchIndex := v;
     customBaudRate := customBaudRate s; config := config s;
     pollInterval := pollInterval s; terminalBuffer := terminalBuffer s |}.

Definition set_customBaudRate (v : bool) (s : State) : State :=
  {| ports := ports s; connected := connected s; dataLog := dataLog s;
     sendText := sendText s; searchText := searchText s;
     showSearch := showSearch s; searchIndex := searchIndex s;
     customBaudRate := v; config := config s;
     pollInterval := pollInterval s; terminalBuffer := terminalBuffer s |}.

Definition set_config (v : AppConfig) (s : State) : State :=
  {| ports := ports s; connected := connected s; dataLog := dataLog s;
     sendText := sendText s; searchText := searchText s;
     showSearch := showSearch s; searchIndex := searchIndex s;
     customBaudRate := customBaudRate s; config := v;
     pollInterval := pollInterval s; terminalBuffer := terminalBuffer s |}.

Definition set_pollInterval (v : option Z) (s : State) : State :=
  {| ports := ports s; connected := connected s; dataLog := dataLog s;
     sendText := sendText s; searchText := searchText s;
     showSearch := showSearch s; searchIndex := searchIndex s;
     customBaudRate := customBaudRate s; config := config s;
     pollInterval := v; terminalBuffer := terminalBuffer s |}.

Definition set_terminalBuffer (v : jsstring) (s : State) : State :=
  {| ports := ports s; connected := connected s; dataLog := dataLog s;
     sendText := sendText s; searchText := searchText s;
     showSearch := showSearch s; searchIndex := searchIndex s;
     customBaudRate := customBaudRate s; config := config s;
     pollInterval := pollInterval s; terminalBuffer := v |}.

(** [config.value.serial = f(config.value.serial)], field by field. *)
Definition update_serial (f : SerialConfig -> SerialConfig) (s : State)
  : State :=
  set_config {| serial := f (serial (config s));
                display := display (config s) |} s.

Definition update_display (f : DisplayConfig -> DisplayConfig) (s : State)
  : State :=
  set_config {| serial := serial (config s);
                display := f (display (config s)) |} s.

Definition with_port (v : jsstring) (c : SerialConfig) : SerialConfig :=
  {| port := v; baud_rate := baud_rate c;
     custom_baud_rate := custom_baud_rate c; data_bits := data_bits c;
     stop_bits := stop_bits c; parity := parity c; hex_mode := hex_mode c;
     append_newline := append_newline c; newline_type := newline_type c |}.

Definition with_baud_rate (v : Z) (c : SerialConfig) : SerialConfig :=
  {| port := port c; baud_rate := v;
     custom_baud_rate := custom_baud_rate c; data_bits := data_bits c;
     stop_bits := stop_bits c; parity := parity c; hex_mode := hex_mode c;
     append_newline := append_newline c; newline_type := newline_type c |}.

Definition with_custom_baud_rate (v : Z) (c : SerialConfig) : SerialConfig :=
  {| port := port c; baud_rate := baud_rate c;
     custom_baud_rate := v; data_bits := data_bits c;
     stop_bits := stop_bits c; parity := parity c; hex_mode := hex_mode c;
     append_newline := append_newline c; newline_type := newline_type c |}.

Definition with_data_bits (v : Z) (c : SerialConfig) : SerialConfig :=
  {| port := port c; baud_rate := baud_rate c;
     custom_baud_rate := custom_baud_rate c; data_bits := v;
     stop_bits := stop_bits c; parity := parity c; hex_mode := hex_mode c;
     append_newline := append_newline c; newline_type := newline_type c |}.

Definition with_stop_bits (v : Z) (c : SerialConfig) : SerialConfig :=
  {| port := port c; baud_rate := baud_rate c;
     custom_baud_rate := custom_baud_rate c; data_bits := data_bits c;
     stop_bits := v; parity := parity c; hex_mode := hex_mode c;
     append_newline := append_newline c; newline_type := newline_type c |}.

Definition with_parity (v : jsstring) (c : SerialConfig) : SerialConfig :=
  {| port := port c; baud_rate := baud_rate c;
     custom_baud_rate := custom_baud_rate c; data_bits := data_bits c;
     stop_bits := stop_bits c; parity := v; hex_mode := hex_mode c;
     append_newline := append_newline c; newline_type := newline_type c |}.

Definition with_hex_mode (v : bool) (c : SerialConfig) : SerialConfig :=
  {| port := port c; baud_rate := baud_rate c;
     custom_baud_rate := custom_baud_rate c; data_bits := data_bits c;
     stop_bits := stop_bits c; parity := parity c; hex_mode := v;
     append_newline := append_newline c; newline_type := newline_type c |}.

Definition with_append_newline (v : bool) (c : SerialConfig) : SerialConfig :=
  {| port := port c; baud_rate := baud_rate c;
     custom_baud_rate := custom_baud_rate c; data_bits := data_bits c;
     stop_bits := stop_bits c; parity := parity c; hex_mode := hex_mode c;
     append_newline := v; newline_type := newline_type c |}.

Definition with_newline_type (v : jsstring) (c : SerialConfig)
  : SerialConfig :=
  {| port := port c; baud_rate := baud_rate c;
     custom_baud_rate := custom_baud_rate c; data_bits := data_bits c;
     stop_bits := stop_bits c; parity := parity c; hex_mode := hex_mode c;
     append_newline := append_newline c; newline_type := v |}.

Definition with_auto_scroll (v : bool) (d : DisplayConfig) : DisplayConfig :=
  {| auto_scroll := v; show_timestamp := show_timestamp d;
     show_hex := show_hex d; font_size := font_size d;
     terminal_mode := terminal_mode d |}.

Definition with_show_timestamp (v : bool) (d : DisplayConfig)
  : DisplayConfig :=
  {| auto_scroll := auto_scroll d; show_timestamp := v;
     show_hex := show_hex d; font_size := font_size d;
     terminal_mode := terminal_mode d |}.

Definition with_show_hex (v : bool) (d : DisplayConfig) : DisplayConfig :=
  {| auto_scroll := auto_scroll d; show_timestamp := show_timestamp d;
     show_hex := v; font_size := font_size d;
     terminal_mode := terminal_mode d |}.

Definition with_font_size (v : Z) (d : DisplayConfig) : DisplayConfig :=
  {| auto_scroll := auto_scroll d; show_timestamp := show_timestamp d;
     show_hex := show_hex d; font_size := v;
     terminal_mode := terminal_mode d |}.

Definition with_terminal_mode (v : bool) (d : DisplayConfig)
  : DisplayConfig :=
  {| auto_scroll := auto_scroll d; show_timestamp := show_timestamp d;
     show_hex := show_hex d; font_size := font_size d;
     terminal_mode := v |}.

(* ================================================================== *)
(** ** The environment of the component *)
(* ================================================================== *)

(** [invoke(cmd, args)]: the commands of the Tauri back end that the
    component calls, with their arguments. *)
Inductive command : Type :=
| list_ports
| connect_serial (port : jsstring) (baudRate dataBits stopBits : Z)
                 (parity : jsstring)
| disconnect_serial
| read_data
| send_data (data : jsstring) (hexMode : bool)
| save_log (path content : jsstring)
| get_config
| save_config (config : AppConfig).

(** The type parameter of [invoke<T>]: what the promise resolves to. *)
Definition payload (c : command) : Type :=
  match c with
  | list_ports => list PortInfo
  | read_data => list DataEntry
  | get_config => AppConfig
  | _ => unit
  end.

(** A settled promise. The rejection value is only ever converted to a
    string or logged, so it is carried as its string conversion. *)
Inductive result (A : Type) : Type :=
| Resolved (v : A)
| Rejected (e : jsstring).
Arguments Resolved {A} v.
Arguments Rejected {A} e.

(** What the component reads of a [Date]. *)
Record Date : Type := {
  toTimeString : jsstring;
  getMilliseconds : Z;
  toISOString : jsstring
}.

(** What the component reads of a [KeyboardEvent]. *)
Record KeyboardEvent : Type := {
  key : jsstring;
  ctrlKey : bool
}.

(** What [focusTerminal] reads of the document: whether
    [terminalInputRef.value] is set, and the tag name of
    [document.activeElement] if there is one. *)
Record FocusContext : Type := {
  inputMounted : bool;
  activeTag : option jsstring
}.

(** Everything the component does that is visible outside its state. *)
Inductive event : Type :=
| Invoked (c : command)
| Alert (msg : jsstring)
| ConsoleError (msg err : jsstring)
| ScrollToBottom
| PreventDefault
| ClearInterval (id : Z)
| FocusInput
| AddKeydownListener
| RemoveKeydownListener.

(** A handler in progress.  [Await s c k] is [await invoke(c)]: the
    handler has left the state [s] behind and is suspended; once the
    promise settles with [r], it resumes as [k r s'] where [s'] is the
    state at that moment, which other handlers may have changed. *)
Inductive task : Type :=
| Done (s : State)
| Emit (e : event) (t : task)
| NewDate (k : Date -> task)
| SetInterval (k : Z -> task)
| Await (s : State) (c : command) (k : result (payload c) -> State -> task).

(** Sequencing of handlers: [await t(); f()]. *)
Fixpoint bind (t : task) (f : State -> task) : task :=
  match t with
  | Done s => f s
  | Emit e t' => Emit e (bind t' f)
  | NewDate k => NewDate (fun d => bind (k d) f)
  | SetInterval k => SetInterval (fun id => bind (k id) f)
  | Await s c k => Await s c (fun r s' => bind (k r s') f)
  end.

Notation "s <- t ;; f" := (bind t (fun s => f))
  (at level 61, t at next level, right associativity).

(** The synchronous queries of a handler: [new Date()] and the timer
    id that [window.setInterval] returns. *)
Record host : Type := {
  clock : Date;
  timerId : Z
}.

Record env : Type := {
  answer : forall c : command, result (payload c);
  sync : host
}.

(** One run of a handler with nothing else in between: the environment
    settles every command at once. *)
Fixpoint run (w : env) (t : task) : State * list event :=
  match t with
  | Done s => (s, [])
  | Emit e t' => let (s, out) := run w t' in (s, e :: out)
  | NewDate k => run w (k (clock (sync w)))
  | SetInterval k => run w (k (timerId (sync w)))
  | Await s c k =>
      let (s', out) := run w (k (answer w c) s) in (s', Invoked c :: out)
  end.

Definition finalState (w : env) (t : task) : State := fst (run w t).
Definition trace (w : env) (t : task) : list event := snd (run w t).

(* ================================================================== *)
(** ** The script of the component *)
(* ================================================================== *)

(** Message literals. *)
Definition msg_list_ports_failed : jsstring :=
  [33719; 21462; 20018; 21475; 21015; 34920; 22833; 36133; 58].
Definition msg_connect_failed : jsstring :=
  [36830; 25509; 22833; 36133; 58; 32].
Definition msg_disconnect_failed : jsstring :=
  [26029; 24320; 22833; 36133; 58].
Definition msg_read_failed : jsstring :=
  [35835; 21462; 25968; 25454; 22833; 36133; 58].
Definition msg_send_failed : jsstring :=
  [21457; 36865; 22833; 36133; 58; 32].
Definition msg_send_failed_log : jsstring :=
  [21457; 36865; 22833; 36133; 58].
Definition msg_log_saved : jsstring :=
  [26085; 24535; 24050; 20445; 23384; 58; 32].
Definition msg_save_failed : jsstring :=
  [20445; 23384; 22833; 36133; 58; 32].
Definition msg_load_config_failed : jsstring :=
  [21152; 36733; 37197; 32622; 22833; 36133; 58].
Definition msg_save_config_failed : jsstring :=
  [20445; 23384; 37197; 32622; 22833; 36133; 58].

(** Truthiness of [pollInterval]. *)
Definition timerSet (p : option Z) : bool :=
  match p with
  | Some id => negb (id =? 0)
  | None => false
  end.

(** [dataLog.value.push(...entries)]. *)
Definition push (entries : list DataEntry) (s : State) : State :=
  set_dataLog (dataLog s ++ entries) s.

(** [scrollToBottom()] only schedules a write to the scroll position of
    the terminal element. *)
Definition scrollToBottom (s : State) : task := Emit ScrollToBottom (Done s).

Section Script.
Context `{Unicode}.

(** The callback of [.map] in [stringToHex]:
    [c => c.charCodeAt(0).toString(16).toUpperCase().padStart(2, "0")]. *)
Definition hexOfChar (c : jsstring) : jsstring :=
  let digits :=
    match charCodeAt c 0 with
    | Some n => Number_toString 16 n
    | None => js "NaN"
    end in
  padStart 2 (js "0") (toUpperCase digits).

Definition stringToHex (str : jsstring) : jsstring :=
  join (js " ") (map hexOfChar (Array_from str)).

(** The computed [filteredLog]. *)
Definition filteredLog (s : State) : list DataEntry :=
  if falsy (searchText s) then dataLog s
  else
    let search := toLowerCase (searchText s) in
    filter (fun entry =>
              includes (toLowerCase (data entry)) search
              || includes (toLowerCase (hex entry)) search)
           (dataLog s).

Definition saveConfig (st : State) : task :=
  Await st (save_config (config st)) (fun r s =>
    match r with
    | Resolved _ => Done s
    | Rejected e => Emit (ConsoleError msg_save_config_failed e) (Done s)
    end).

(** The assignment [config.value = cfg] also wakes the watcher of
    [config]; its callback is a handler of its own, [watchConfig]
    below, which the event loop is free to start. *)
Definition loadConfig (st : State) : task :=
  Await st get_config (fun r s =>
    match r with
    | Resolved cfg => Done (set_config cfg s)
    | Rejected e => Emit (ConsoleError msg_load_config_failed e) (Done s)
    end).

Definition refreshPorts (st : State) : task :=
  Await st list_ports (fun r s =>
    match r with
    | Resolved ps => Done (set_ports ps s)
    | Rejected e => Emit (ConsoleError msg_list_ports_failed e) (Done s)
    end).

(** The callback given to [setInterval] in [startPolling]:
    [pollTickResume] is what it does once [read_data] has settled. *)
Definition pollTickResume (r : result (list DataEntry)) (s : State) : task :=
  match r with
  | Resolved entries =>
      if (0 <? length entries)%nat then
        let s1 := push entries s in
        if auto_scroll (display (config s1)) then scrollToBottom s1
        else Done s1
      else Done s
  | Rejected e => Emit (ConsoleError msg_read_failed e) (Done s)
  end.

Definition pollTick (st : State) : task :=
  Await st read_data pollTickResume.

Definition startPolling (st : State) : task :=
  if timerSet (pollInterval st) then Done st
  else SetInterval (fun id => Done (set_pollInterval (Some id) st)).

Definition stopPolling (st : State) : task :=
  match pollInterval st with
  | Some id =>
      if timerSet (pollInterval st)
      then Emit (ClearInterval id) (Done (set_pollInterval None st))
      else Done st
  | None => Done st
  end.

Definition connect (st : State) : task :=
  Await st
    (connect_serial (port (serial (config st)))
                    (baud_rate (serial (config st)))
                    (data_bits (serial (config st)))
                    (stop_bits (serial (config st)))
                    (parity (serial (config st))))
    (fun r s =>
       match r with
       | Resolved _ =>
           s1 <- startPolling (set_connected true s) ;;
           saveConfig s1
       | Rejected e => Emit (Alert (msg_connect_failed ++ e)) (Done s)
       end).

Definition disconnect (st : State) : task :=
  s0 <- stopPolling st ;;
  Await s0 disconnect_serial (fun r s =>
    match r with
    | Resolved _ => Done (set_connected false s)
    | Rejected e => Emit (ConsoleError msg_disconnect_failed e) (Done s)
    end).

(** The [switch] on [newline_type] inside [send]. *)
Definition newlineSuffix (c : SerialConfig) : jsstring :=
  if append_newline c then
    if str_eqb (newline_type c) (js "crlf") then [13; 10]
    else if str_eqb (newline_type c) (js "lf") then [10]
    else if str_eqb (newline_type c) (js "cr") then [13]
    else []
  else [].

(** [now.toTimeString().split(" ")[0] + "." +
     now.getMilliseconds().toString().padStart(3, "0")]. *)
Definition formatTimestamp (now : Date) : jsstring :=
  beforeSpace (toTimeString now) ++ js "."
  ++ padStart 3 (js "0") (Number_toString 10 (getMilliseconds now)).

(** The entry that [send] pushes, read from the state at that time. *)
Definition txEntry (now : Date) (s : State) : DataEntry :=
  {| timestamp := formatTimestamp now;
     data := sendText s;
     hex := if hex_mode (serial (config s)) then sendText s
            else stringToHex (sendText s);
     direction := js "tx" |}.

Definition send (st : State) : task :=
  if falsy (sendText st) || negb (connected st) then Done st
  else
    let data := sendText st ++ newlineSuffix (serial (config st)) in
    Await st (send_data data (hex_mode (serial (config st)))) (fun r s =>
      match r with
      | Resolved _ =>
          NewDate (fun now =>
            let s1 := push [txEntry now s] s in
            let s2 := if negb (terminal_mode (display (config s1)))
                      then set_sendText (js "") s1 else s1 in
            if auto_scroll (display (config s2)) then scrollToBottom s2
            else Done s2)
      | Rejected e => Emit (Alert (msg_send_failed ++ e)) (Done s)
      end).

Definition clearLog (st : State) : task :=
  Done (set_terminalBuffer (js "") (set_dataLog [] st)).

(** The character that [handleTerminalInput] chooses for a key, [None]
    when it returns without sending. *)
Definition terminalChar (e : KeyboardEvent) : option jsstring :=
  if str_eqb (key e) (js "Enter") then Some [13]
  else if str_eqb (key e) (js "Backspace") then Some [127]
  else if (length (key e) =? 1)%nat then Some (key e)
  else if ctrlKey e
          && str_geb (toLowerCase (key e)) (js "a")
          && str_leb (toLowerCase (key e)) (js "z")
  then Some (fromCharCode
               (option_map (fun n => n - 96)
                           (charCodeAt (toLowerCase (key e)) 0)))
  else None.

Definition handleTerminalInput (e : KeyboardEvent) (st : State) : task :=
  if negb (connected st) || negb (terminal_mode (display (config st)))
  then Done st
  else
    Emit PreventDefault
      match terminalChar e with
      | Some char =>
          Await st (send_data char false) (fun r s =>
            match r with
            | Resolved _ =>
                Done (set_terminalBuffer (terminalBuffer s ++ char) s)
            | Rejected err =>
                Emit (ConsoleError msg_send_failed_log err) (Done s)
            end)
      | None => Done st
      end.

Definition focusTerminal (dom : FocusContext) (st : State) : task :=
  if terminal_mode (display (config st)) && inputMounted dom && connected st
  then
    let isOtherInput :=
      match activeTag dom with
      | Some tag => str_eqb tag (js "INPUT") || str_eqb tag (js "TEXTAREA")
                    || str_eqb tag (js "SELECT")
      | None => false
      end in
    if negb isOtherInput then Emit FocusInput (Done st) else Done st
  else Done st.

(** One line of the saved log. *)
Definition formatEntry (d : DisplayConfig) (entry : DataEntry) : jsstring :=
  let dir := if str_eqb (direction entry) (js "tx") then js "TX"
             else js "RX" in
  let ts := if show_timestamp d then js "[" ++ timestamp entry ++ js "] "
            else js "" in
  let hx := if show_hex d then js " | HEX: " ++ hex entry else js "" in
  ts ++ dir ++ js ": " ++ data entry ++ hx.

Definition saveLog (st : State) : task :=
  let content :=
    join [10] (map (formatEntry (display (config st))) (dataLog st)) in
  NewDate (fun now =>
    let filename :=
      js "serial_log_" ++ replaceColonDot (toISOString now) ++ js ".txt" in
    Await st (save_log filename content) (fun r s =>
      match r with
      | Resolved _ => Emit (Alert (msg_log_saved ++ filename)) (Done s)
      | Rejected e => Emit (Alert (msg_save_failed ++ e)) (Done s)
      end)).

Definition handleKeydown (e : KeyboardEvent) (st : State) : task :=
  if ctrlKey e && str_eqb (key e) (js "f") then
    Emit PreventDefault
      (let s1 := set_showSearch (negb (showSearch st)) st in
       if negb (showSearch s1) then Done (set_searchText (js "") s1)
       else Done s1)
  else Done st.

(** [%] of JavaScript truncates towards zero. *)
Definition findNext (st : State) : task :=
  if falsy (searchText st) || (length (filteredLog st) =? 0)%nat
  then Done st
  else Done (set_searchIndex
               (Z.rem (searchIndex st + 1)
                      (Z.of_nat (length (filteredLog st)))) st).

Definition findPrev (st : State) : task :=
  if falsy (searchText st) || (length (filteredLog st) =? 0)%nat
  then Done st
  else Done (set_searchIndex
               (if searchIndex st <=? 0
                then Z.of_nat (length (filteredLog st)) - 1
                else searchIndex st - 1) st).

Definition onMounted (st : State) : task :=
  s1 <- loadConfig st ;;
  s2 <- refreshPorts s1 ;;
  Emit AddKeydownListener (Done s2).

Definition onUnmounted (st : State) : task :=
  s1 <- stopPolling st ;;
  Emit RemoveKeydownListener (Done s1).

(** [watch(config, () => saveConfig(), { deep: true })]. *)
Definition watchConfig (st : State) : task := saveConfig st.

(** [watch(() => config.value.display.terminal_mode, ...)]. *)
Definition watchTerminalMode (newVal : bool) (dom : FocusContext)
  (st : State) : task :=
  if newVal then focusTerminal dom st else Done st.

(** *** Handlers written in the template *)

(** [@change] of the baud-rate [<select>]; [v] is the parsed value of
    the chosen option. *)
Definition baudSelectChange (v : Z) (st : State) : task :=
  if v =? -1 then
    let s1 := set_customBaudRate true st in
    if 0 <? custom_baud_rate (serial (config s1))
    then Done (update_serial
                 (with_baud_rate (custom_baud_rate (serial (config s1)))) s1)
    else Done s1
  else
    Done (set_customBaudRate false (update_serial (with_baud_rate v) st)).

(** [@input] of the custom baud-rate field; [None] is [NaN]. *)
Definition baudInput (v : option Z) (st : State) : task :=
  match v with
  | Some n =>
      if 0 <? n
      then Done (update_serial (with_custom_baud_rate n)
                   (update_serial (with_baud_rate n) st))
      else Done st
  | None => Done st
  end.

(** Everything that can start a handler: user input, the polling
    timer, the lifecycle hooks and the watchers. *)
Inductive action : Type :=
| DoRefreshPorts
| DoConnect
| DoDisconnect
| DoPollTick
| DoSend
| DoClearLog
| DoTerminalInput (e : KeyboardEvent)
| DoFocusTerminal (dom : FocusContext)
| DoSaveLog
| DoKeydown (e : KeyboardEvent)
| DoFindNext
| DoFindPrev
| DoMounted
| DoUnmounted
| DoWatchConfig
| DoWatchTerminalMode (newVal : bool) (dom : FocusContext)
| DoBaudSelect (v : Z)
| DoBaudInput (v : option Z)
| DoCloseSearch
| InputSendText (v : jsstring)
| InputSearchText (v : jsstring)
| InputPort (v : jsstring)
| InputDataBits (v : Z)
| InputStopBits (v : Z)
| InputParity (v : jsstring)
| InputHexMode (v : bool)
| InputAppendNewline (v : bool)
| InputNewlineType (v : jsstring)
| InputAutoScroll (v : bool)
| InputShowTimestamp (v : bool)
| InputShowHex (v : bool)
| InputTerminalMode (v : bool)
| InputFontSize (v : Z).

Definition handler (a : action) (st : State) : task :=
  match a with
  | DoRefreshPorts => refreshPorts st
  | DoConnect => connect st
  | DoDisconnect => disconnect st
  | DoPollTick => pollTick st
  | DoSend => send st
  | DoClearLog => clearLog st
  | DoTerminalInput e => handleTerminalInput e st
  | DoFocusTerminal dom => focusTerminal dom st
  | DoSaveLog => saveLog st
  | DoKeydown e => handleKeydown e st
  | DoFindNext => findNext st
  | DoFindPrev => findPrev st
  | DoMounted => onMounted st
  | DoUnmounted => onUnmounted st
  | DoWatchConfig => watchConfig st
  | DoWatchTerminalMode v dom => watchTerminalMode v dom st
  | DoBaudSelect v => baudSelectChange v st
  | DoBaudInput v => baudInput v st
  | DoCloseSearch => Done (set_showSearch false st)
  | InputSendText v => Done (set_sendText v st)
  | InputSearchText v => Done (set_searchText v st)
  | InputPort v => Done (update_serial (with_port v) st)
  | InputDataBits v => Done (update_serial (with_data_bits v) st)
  | InputStopBits v => Done (update_serial (with_stop_bits v) st)
  | InputParity v => Done (update_serial (with_parity v) st)
  | InputHexMode v => Done (update_serial (with_hex_mode v) st)
  | InputAppendNewline v => Done (update_serial (with_append_newline v) st)
  | InputNewlineType v => Done (update_serial (with_newline_type v) st)
  | InputAutoScroll v => Done (update_display (with_auto_scroll v) st)
  | InputShowTimestamp v => Done (update_display (with_show_timestamp v) st)
  | InputShowHex v => Done (update_display (with_show_hex v) st)
  | InputTerminalMode v => Done (update_display (with_terminal_mode v) st)
  | InputFontSize v => Done (update_display (with_font_size v) st)
  end.

End Script.

(* ================================================================== *)
(** ** Reference notions of the specification *)
(* ================================================================== *)

(** A byte sequence is a string whose code points are all in 0..255. *)
Definition isByte (c : Z) : Prop := 0 <= c <= 255.
Definition isByteb (c : Z) : bool := (0 <=? c) && (c <=? 255).

(** The 256 byte values, for properties checked value by value. *)
Definition allBytes : list Z := map Z.of_nat (seq 0 256).

Definition isUpperHexDigit (c : Z) : bool :=
  ((48 <=? c) && (c <=? 57)) || ((65 <=? c) && (c <=? 70)).
Definition isSpace (c : Z) : bool := c =? 32.

(** Number of code units of [s] that satisfy [p]. *)
Definition count (p : Z -> bool) (s : jsstring) : nat := length (filter p s).

(** The canonical hex string in the words of the data model: uppercase,
    two digits per byte, single-space separated.  This definition is
    independent of [stringToHex], with which it is compared below. *)
Definition hexDigitUpper (d : Z) : Z :=
  nth (Z.to_nat d) (js "0123456789ABCDEF") 0.
Definition hexPair (b : Z) : jsstring :=
  [hexDigitUpper (b / 16); hexDigitUpper (b mod 16)].
Definition canonicalHex (bytes : list Z) : jsstring :=
  join (js " ") (map hexPair bytes).

(** Value of a hexadecimal digit, in either case. *)
Definition hexValue (c : Z) : option Z :=
  if (48 <=? c) && (c <=? 57) then Some (c - 48)
  else if (65 <=? c) && (c <=? 70) then Some (c - 55)
  else if (97 <=? c) && (c <=? 102) then Some (c - 87)
  else None.

Definition isWhitespace (c : Z) : bool :=
  (c =? 32) || ((9 <=? c) && (c <=? 13)).

(** The tokens of [s] between runs of whitespace; [cur] is the token
    being read. *)
Fixpoint splitWhitespace (cur s : jsstring) : list jsstring :=
  match s with
  | [] => match cur with [] => [] | _ => [cur] end
  | c :: s' =>
      if isWhitespace c then
        match cur with
        | [] => splitWhitespace [] s'
        | _ => cur :: splitWhitespace [] s'
        end
      else splitWhitespace (cur ++ [c]) s'
  end.

Definition decodePair (tok : jsstring) : option Z :=
  match tok with
  | [h; l] =>
      match hexValue h, hexValue l with
      | Some x, Some y => Some (16 * x + y)
      | _, _ => None
      end
  | _ => None
  end.

Fixpoint decodePairs (toks : list jsstring) : option (list Z) :=
  match toks with
  | [] => Some []
  | tok :: rest =>
      match decodePair tok, decodePairs rest with
      | Some b, Some bs => Some (b :: bs)
      | _, _ => None
      end
  end.

(** The reference decoder, in the words of the specification: the
    string is split on whitespace and decoded byte pair by byte pair,
    hexadecimal digits being accepted in either case.  A token that is
    not a pair of hexadecimal digits is invalid, so that ["AB CD E"] is
    rejected for the odd digit count of its last token. *)
Definition decodeHex (s : jsstring) : option (list Z) :=
  decodePairs (splitWhitespace [] s).

(** Modelled from the spec: the bytes that [send_data] of the back end
    transmits for a payload; the back end is not part of the component.
    In hex mode these are the bytes that the reference decoder gives, in
    text mode the literal bytes of the payload, for a payload that is a
    byte sequence. *)
Definition transmitted (payload : jsstring) (hexMode : bool)
  : option (list Z) :=
  if hexMode then decodeHex payload
  else if forallb isByteb payload then Some payload else None.

(** Modelled from the spec: a back end that accepts every command and
    rejects exactly the [send_data] payloads that cannot be transmitted,
    with nothing to read, no port and the default configuration. *)
Definition specAnswer (c : command) : result (payload c) :=
  match c return result (payload c) with
  | list_ports => Resolved []
  | connect_serial _ _ _ _ _ => Resolved tt
  | disconnect_serial => Resolved tt
  | read_data => Resolved []
  | send_data d h =>
      match transmitted d h with
      | Some _ => Resolved tt
      | None => Rejected (js "InvalidHex")
      end
  | save_log _ _ => Resolved tt
  | get_config => Resolved defaultConfig
  | save_config _ => Resolved tt
  end.

(** A back end on which every command fails with [e]. *)
Definition failingAnswer (e : jsstring) (c : command) : result (payload c) :=
  Rejected e.

Definition noon : Date :=
  {| toTimeString := js "12:00:00 GMT+0000 (Coordinated Universal Time)";
     getMilliseconds := 7;
     toISOString := js "2024-01-01T12:00:00.007Z" |}.

Definition noonHost : host := {| clock := noon; timerId := 1 |}.

Definition specEnv : env := {| answer := specAnswer; sync := noonHost |}.

Definition failingEnv (e : jsstring) : env :=
  {| answer := failingAnswer e; sync := noonHost |}.

(** The state of a session that is connected with [text] in the send
    box and [cfg] as the serial settings. *)
Definition connectedWith (text : jsstring) (cfg : SerialConfig) : State :=
  set_sendText text
    (set_connected true
       (set_pollInterval (Some 1)
          (update_serial (fun _ => cfg) initialState))).

(** Serial settings with hex mode on, a connected session in terminal
    mode, and a port, for the concrete cases. *)
Definition hexSettings : SerialConfig :=
  with_hex_mode true (serial defaultConfig).

Definition terminalSession : State :=
  update_display (with_terminal_mode true)
                 (connectedWith (js "") (serial defaultConfig)).

Definition com3 : PortInfo :=
  {| name := js "COM3"; description := js "USB Serial" |}.

(** An entry as the back end reports received data. *)
Definition rxOK : DataEntry :=
  {| timestamp := js "12:00:00.050"; data := js "OK";
     hex := js "4F 4B"; direction := js "rx" |}.

(* ================================================================== *)
(** ** The event loop *)
(* ================================================================== *)

(** A handler suspended at an [await], with the command it waits for. *)
Inductive suspended : Type :=
| Suspended (c : command) (k : result (payload c) -> State -> task).

(** One uninterrupted stretch of a handler: it runs until it finishes
    or reaches its next [await]. *)
Fixpoint segment (h : host) (t : task)
  : State * list event * option suspended :=
  match t with
  | Done s => (s, [], None)
  | Emit e t' => let '(s, out, p) := segment h t' in (s, e :: out, p)
  | NewDate k => segment h (k (clock h))
  | SetInterval k => segment h (k (timerId h))
  | Await s c k => (s, [Invoked c], Some (Suspended c k))
  end.

Definition optionList {A : Type} (o : option A) : list A :=
  match o with Some a => [a] | None => [] end.

(** The component between two stretches: its state and the handlers
    that wait for the back end. *)
Record system : Type := {
  current : State;
  pending : list suspended
}.

Definition boot : system := {| current := initialState; pending := [] |}.

Inductive label : Type :=
| Start (a : action)
| Settle (c : command).

Section EventLoop.
Context `{Unicode}.

(** Either something starts a handler, or a promise settles and the
    handler that waited for it resumes on the current state. *)
Inductive step : system -> label -> system -> Prop :=
| step_start (a : action) (h : host) (sys : system) s out p :
    segment h (handler a (current sys)) = (s, out, p) ->
    step sys (Start a) {| current := s; pending := pending sys ++ optionList p |}
| step_settle (h : host) (sys : system) before c k after r s out p :
    pending sys = before ++ Suspended c k :: after ->
    segment h (k r (current sys)) = (s, out, p) ->
    step sys (Settle c)
         {| current := s; pending := before ++ after ++ optionList p |}.

Inductive reachable : system -> Prop :=
| reach_boot : reachable boot
| reach_step sys l sys' : reachable sys -> step sys l sys' -> reachable sys'.

End EventLoop.

(** [l'] is [l] with entries appended at the end. *)
Definition extends (l l' : list DataEntry) : Prop :=
  exists suffix, l' = l ++ suffix.

(** Every stretch of [t] leaves a log that extends the log it started
    from; the first stretch starts from [l]. *)
Fixpoint logGrows (l : list DataEntry) (t : task) : Prop :=
  match t with
  | Done s => extends l (dataLog s)
  | Emit _ t' => logGrows l t'
  | NewDate k => forall d, logGrows l (k d)
  | SetInterval k => forall id, logGrows l (k id)
  | Await s c k =>
      extends l (dataLog s) /\ forall r s', logGrows (dataLog s') (k r s')
  end.

Definition growing (p : suspended) : Prop :=
  match p with
  | Suspended c k => forall r s, logGrows (dataLog s) (k r s)
  end.

(** The payload and mode of the [send_data] call that a handler issues
    first, if it issues one before anything else. *)
Fixpoint firstSend (t : task) : option (jsstring * bool) :=
  match t with
  | Emit _ t' => firstSend t'
  | Await _ (send_data d h) _ => Some (d, h)
  | _ => None
  end.

(** The alerts in a trace: what the user is shown. *)
Definition isAlert (e : event) : bool :=
  match e with
  | Alert _ => true
  | _ => false
  end.

(** The [send_data] calls in a trace. *)
Definition isSend (e : event) : bool :=
  match e with
  | Invoked (send_data _ _) => true
  | _ => false
  end.

(** The component after the first poll tick has started, and after its
    read has then resolved to one entry. *)
Definition polling : system :=
  {| current := initialState;
     pending := [Suspended read_data pollTickResume] |}.

Definition received : system :=
  {| current := push [rxOK] initialState; pending := [] |}.

(* ================================================================== *)
(** ** Expressions of the template *)
(* ================================================================== *)

(** [baudRates.includes(n)]. *)
Definition includesBaud (n : Z) : bool := existsb (Z.eqb n) baudRates.

(** [:value] of the baud-rate [<select>]. *)
Definition baudSelectValue (st : State) : Z :=
  if customBaudRate st then -1
  else if includesBaud (baud_rate (serial (config st)))
       then baud_rate (serial (config st))
       else -1.

(** [v-if] of the custom baud-rate field. *)
Definition customBaudShown (st : State) : bool :=
  customBaudRate st || negb (includesBaud (baud_rate (serial (config st)))).

(** [:value] of the custom baud-rate field; [None] is the empty string. *)
Definition customBaudValue (st : State) : option Z :=
  if (0 <? baud_rate (serial (config st)))
     && negb (includesBaud (baud_rate (serial (config st))))
  then Some (baud_rate (serial (config st)))
  else if 0 <? custom_baud_rate (serial (config st))
       then Some (custom_baud_rate (serial (config st)))
       else None.

(** [:disabled] of the send button: [!connected || !sendText]. *)
Definition sendDisabled (st : State) : bool :=
  negb (connected st) || falsy (sendText st).

(** The text of the interactive terminal:
    [dataLog.map(e => e.data).join('')]. *)
Definition terminalContent (st : State) : jsstring :=
  join (js "") (map data (dataLog st)).

Section Template.
Context `{Unicode}.

(** The [highlight] class of a log line:
    [searchText && (entry.data.toLowerCase().includes(searchText.toLowerCase())
     || entry.hex.toLowerCase().includes(searchText.toLowerCase()))]. *)
Definition highlight (st : State) (entry : DataEntry) : bool :=
  negb (falsy (searchText st))
  && (includes (toLowerCase (data entry)) (toLowerCase (searchText st))
      || includes (toLowerCase (hex entry)) (toLowerCase (searchText st))).

End Template.

(* ================================================================== *)
(** ** Notions used to state the properties *)
(* ================================================================== *)

(** The command that [connect] issues in the state [st]. *)
Definition connectCall (st : State) : command :=
  connect_serial (port (serial (config st)))
                 (baud_rate (serial (config st)))
                 (data_bits (serial (config st)))
                 (stop_bits (serial (config st)))
                 (parity (serial (config st))).

(** The command that [send] issues in the state [st]. *)
Definition sendCall (st : State) : command :=
  send_data (sendText st ++ newlineSuffix (serial (config st)))
            (hex_mode (serial (config st))).

(** The commands issued in a trace, in order. *)
Fixpoint invocations (out : list event) : list command :=
  match out with
  | [] => []
  | Invoked c :: rest => c :: invocations rest
  | _ :: rest => invocations rest
  end.

(** Every stretch of [t] takes the state it starts from to a state
    related to it by [R]; the first stretch starts from [s0]. *)
Fixpoint stretches (R : State -> State -> Prop) (s0 : State) (t : task)
  : Prop :=
  match t with
  | Done s => R s0 s
  | Emit _ t' => stretches R s0 t'
  | NewDate k => forall d, stretches R s0 (k d)
  | SetInterval k => forall id, stretches R s0 (k id)
  | Await s c k => R s0 s /\ forall r s', stretches R s' (k r s')
  end.

Definition resumes (R : State -> State -> Prop) (p : suspended) : Prop :=
  match p with
  | Suspended c k => forall r s, stretches R s (k r s)
  end.



(** The [n] integers from [from] on. *)
Fixpoint countUp (from : Z) (n : nat) : list Z :=
  match n with
  | O => []
  | S n' => from :: countUp (from + 1) n'
  end.

(** A UTF-16 code unit, and all of them. *)
Definition isCodeUnit (c : Z) : Prop := 0 <= c < 65536.
Definition allCodeUnits : list Z := countUp 0 (Z.to_nat 65536).

(** A token of hex digits for one character: two to four uppercase
    hexadecimal digits. *)
Definition isHexToken (t : jsstring) : bool :=
  (2 <=? length t)%nat && (length t <=? 4)%nat && forallb isUpperHexDigit t.

(** The index of the search is at least its initial value. *)
Definition indexFrom (s s' : State) : Prop :=
  -1 <= searchIndex s -> -1 <= searchIndex s'.

(** The connection flag is the same. *)
Definition sameConnected (s s' : State) : Prop := connected s' = connected s.

(** A sent entry, and a session with two entries in the log and a
    search under way, for the concrete cases. *)
Definition txHello : DataEntry :=
  {| timestamp := js "12:00:01.000"; data := js "Hello";
     hex := js "48 65 6C 6C 6F"; direction := js "tx" |}.

Definition searching : State :=
  set_searchIndex 0
    (set_searchText (js "o") (set_dataLog [rxOK; txHello] initialState)).

Definition searchingHello : State :=
  set_searchText (js "hello") (set_dataLog [rxOK; txHello] initialState).
(* ================================================================== *)
(** ** Properties of the string operations *)
(* ================================================================== *)

Lemma str_eqb_eq (a b : jsstring) : str_eqb a b = true <-> a = b.
Proof.
  revert b; induction a as [|x a IH]; intros [|y b]; simpl;
    try (split; congruence).
  rewrite andb_true_iff, Z.eqb_eq, IH. split.
  - intros [-> ->]; reflexivity.
  - intros E; injection E; auto.
Qed.

Lemma str_eqb_refl (a : jsstring) : str_eqb a a = true.
Proof. apply str_eqb_eq; reflexivity. Qed.

Lemma allBytes_complete (c : Z) : isByte c -> In c allBytes.
Proof.
  intros Hc. unfold allBytes. rewrite <- (Z2Nat.id c) by (unfold isByte in Hc; lia).
  apply in_map, in_seq. unfold isByte in Hc. lia.
Qed.

Lemma forall_bytes (P : Z -> bool) :
  forallb P allBytes = true -> forall c, isByte c -> P c = true.
Proof.
  intros HP c Hc. rewrite forallb_forall in HP. apply HP, allBytes_complete, Hc.
Qed.

Lemma isAsciib_Forall (s : jsstring) :
  forallb isAsciib s = true -> Forall isAscii s.
Proof.
  intros Hs. apply Forall_forall. intros c Hc.
  rewrite forallb_forall in Hs. specialize (Hs c Hc).
  unfold isAsciib in Hs. unfold isAscii. lia.
Qed.

(** The fuel of [Number_toString] is enough: more of it does not change
    the digits. *)
Lemma digitsFuel_enough (radix : Z) (fuel extra : nat) (n : Z)
  (acc : jsstring) :
  2 <= radix -> 0 <= n < 2 ^ Z.of_nat (S fuel) ->
  digitsFuel (S fuel + extra) radix n acc = digitsFuel (S fuel) radix n acc.
Proof.
  intros Hr. revert n acc. induction fuel as [|fuel IH]; intros n acc Hn.
  - cbn [digitsFuel Nat.add].
    replace (n / radix) with 0; [reflexivity|].
    symmetry. apply Z.div_small. change (2 ^ Z.of_nat 1) with 2 in Hn. lia.
  - change (S (S fuel) + extra)%nat with (S (S fuel + extra)).
    cbn [digitsFuel]. destruct (n / radix =? 0); [reflexivity|].
    apply IH. split; [apply Z.div_pos; lia|].
    apply Z.div_lt_upper_bound; [lia|].
    rewrite (Nat2Z.inj_succ (S fuel)), Z.pow_succ_r in Hn by lia.
    assert (0 < 2 ^ Z.of_nat (S fuel)) by (apply Z.pow_pos_nonneg; lia).
    nia.
Qed.

Lemma Number_toString_fuel (radix n : Z) (extra : nat) :
  2 <= radix -> 0 <= n ->
  digitsFuel (digitsBound n + extra) radix n [] = Number_toString radix n.
Proof.
  intros Hr Hn. unfold Number_toString.
  replace (n <? 0) with false by (symmetry; apply Z.ltb_ge; lia).
  unfold digitsBound. apply digitsFuel_enough; [exact Hr|].
  split; [exact Hn|].
  rewrite Nat2Z.inj_succ, Z2Nat.id by apply Z.log2_nonneg.
  destruct (Z.eq_dec n 0) as [-> | Hne]; [reflexivity|].
  apply Z.log2_spec. lia.
Qed.

Lemma toString16_byte_ascii (c : Z) :
  isByte c -> Forall isAscii (Number_toString 16 c).
Proof.
  intros Hc. apply isAsciib_Forall. revert c Hc.
  apply (forall_bytes (fun c => forallb isAsciib (Number_toString 16 c))).
  vm_compute. reflexivity.
Qed.

Section StringToHexFacts.
Context `{Unicode}.

(** On a byte, the callback of [stringToHex] yields the canonical pair. *)
Lemma hexOfChar_byte (c : Z) : isByte c -> hexOfChar [c] = hexPair c.
Proof.
  intros Hc. unfold hexOfChar. simpl charCodeAt.
  rewrite toUpperCase_ascii by (apply toString16_byte_ascii, Hc).
  apply str_eqb_eq. revert c Hc.
  apply (forall_bytes (fun c =>
    str_eqb (padStart 2 (js "0") (map upperAscii (Number_toString 16 c)))
            (hexPair c))).
  vm_compute. reflexivity.
Qed.

Lemma Array_from_bytes (b : jsstring) :
  Forall isByte b -> Array_from b = map (fun c => [c]) b.
Proof.
  induction 1 as [|c b Hc Hb IH]; [reflexivity|].
  simpl. destruct b as [|d b']; [reflexivity|].
  replace (isHighSurrogate c) with false.
  - simpl andb. cbv iota. rewrite IH. reflexivity.
  - unfold isHighSurrogate, isByte in *. lia.
Qed.

(** On byte sequences [stringToHex] is the canonical encoding. *)
Lemma stringToHex_canonical (b : jsstring) :
  Forall isByte b -> stringToHex b = canonicalHex b.
Proof.
  intros Hb. unfold stringToHex, canonicalHex.
  rewrite (Array_from_bytes b Hb), map_map. f_equal.
  induction Hb as [|c b Hc Hb IH]; [reflexivity|].
  simpl. rewrite IH, (hexOfChar_byte c Hc). reflexivity.
Qed.

End StringToHexFacts.

(** *** The canonical encoding *)

Lemma count_app (p : Z -> bool) (a b : jsstring) :
  count p (a ++ b) = (count p a + count p b)%nat.
Proof. unfold count. rewrite filter_app, length_app. reflexivity. Qed.

Lemma hexPair_upper (c : Z) :
  isByte c -> forallb isUpperHexDigit (hexPair c) = true.
Proof.
  revert c. apply (forall_bytes (fun c => forallb isUpperHexDigit (hexPair c))).
  vm_compute. reflexivity.
Qed.

Lemma hexPair_count_upper (c : Z) :
  isByte c -> count isUpperHexDigit (hexPair c) = 2%nat.
Proof.
  intros Hc. apply Nat.eqb_eq. revert c Hc.
  apply (forall_bytes (fun c => (count isUpperHexDigit (hexPair c) =? 2)%nat)).
  vm_compute. reflexivity.
Qed.

Lemma hexPair_count_space (c : Z) :
  isByte c -> count isSpace (hexPair c) = 0%nat.
Proof.
  intros Hc. apply Nat.eqb_eq. revert c Hc.
  apply (forall_bytes (fun c => (count isSpace (hexPair c) =? 0)%nat)).
  vm_compute. reflexivity.
Qed.

Lemma hexPair_no_whitespace (c : Z) :
  isByte c -> forallb (fun x => negb (isWhitespace x)) (hexPair c) = true.
Proof.
  revert c.
  apply (forall_bytes
           (fun c => forallb (fun x => negb (isWhitespace x)) (hexPair c))).
  vm_compute. reflexivity.
Qed.

Lemma decodePair_hexPair (c : Z) : isByte c -> decodePair (hexPair c) = Some c.
Proof.
  intros Hc.
  assert (E : match decodePair (hexPair c) with
              | Some v => v =? c
              | None => false
              end = true).
  { revert c Hc.
    apply (forall_bytes (fun c => match decodePair (hexPair c) with
                                  | Some v => v =? c
                                  | None => false
                                  end)).
    vm_compute. reflexivity. }
  destruct (decodePair (hexPair c)) as [v|]; [|discriminate].
  apply Z.eqb_eq in E. congruence.
Qed.

Lemma canonicalHex_cons2 (c d : Z) (b : list Z) :
  canonicalHex (c :: d :: b) = hexPair c ++ [32] ++ canonicalHex (d :: b).
Proof. reflexivity. Qed.

Lemma canonicalHex_counts (b : list Z) :
  Forall isByte b ->
  count isUpperHexDigit (canonicalHex b) = (2 * length b)%nat /\
  count isSpace (canonicalHex b) = (length b - 1)%nat /\
  length (canonicalHex b) = (2 * length b + (length b - 1))%nat.
Proof.
  induction 1 as [|c b Hc Hb IH]; [repeat split; reflexivity|].
  destruct b as [|d b'].
  - unfold canonicalHex. simpl map. simpl join.
    rewrite (hexPair_count_upper c Hc), (hexPair_count_space c Hc).
    repeat split; reflexivity.
  - destruct IH as (IH1 & IH2 & IH3).
    rewrite canonicalHex_cons2, !count_app, !length_app.
    rewrite (hexPair_count_upper c Hc), (hexPair_count_space c Hc), IH1, IH2, IH3.
    change (count isUpperHexDigit [32]) with 0%nat.
    change (count isSpace [32]) with 1%nat.
    simpl length. repeat split; lia.
Qed.

Lemma splitWhitespace_token (tok cur rest : jsstring) :
  forallb (fun x => negb (isWhitespace x)) tok = true ->
  splitWhitespace cur (tok ++ rest) = splitWhitespace (cur ++ tok) rest.
Proof.
  revert cur. induction tok as [|x tok IH]; intros cur Htok.
  - rewrite app_nil_r. reflexivity.
  - simpl in Htok. apply andb_true_iff in Htok as [Hx Htok].
    simpl. destruct (isWhitespace x); [discriminate|].
    rewrite (IH _ Htok), <- app_assoc. reflexivity.
Qed.

Lemma splitWhitespace_canonical (b : list Z) :
  Forall isByte b -> splitWhitespace [] (canonicalHex b) = map hexPair b.
Proof.
  induction 1 as [|c b Hc Hb IH]; [reflexivity|].
  destruct b as [|d b'].
  - unfold canonicalHex. simpl map. simpl join.
    rewrite <- (app_nil_r (hexPair c)) at 1.
    rewrite (splitWhitespace_token _ _ _ (hexPair_no_whitespace c Hc)).
    reflexivity.
  - rewrite canonicalHex_cons2.
    rewrite (splitWhitespace_token _ _ _ (hexPair_no_whitespace c Hc)).
    simpl app at 1. simpl splitWhitespace at 1. unfold hexPair at 1.
    rewrite IH. reflexivity.
Qed.

Lemma decodePairs_hexPair (b : list Z) :
  Forall isByte b -> decodePairs (map hexPair b) = Some b.
Proof.
  induction 1 as [|c b Hc Hb IH]; [reflexivity|].
  cbn [map decodePairs]. rewrite (decodePair_hexPair c Hc), IH. reflexivity.
Qed.

Lemma decodeHex_canonical (b : list Z) :
  Forall isByte b -> decodeHex (canonicalHex b) = Some b.
Proof.
  intros Hb. unfold decodeHex.
  rewrite (splitWhitespace_canonical b Hb). apply decodePairs_hexPair, Hb.
Qed.

(** C2: on every byte sequence [b], [stringToHex] yields [2 * len b]
    uppercase hexadecimal digits and [len b - 1] spaces and nothing
    else, the spaces being single and interior (the result is the byte
    pairs joined by one space), and decoding the result pair by pair
    gives [b] back. *)
Theorem stringToHex_roundtrip `{Unicode} (b : jsstring) :
  Forall isByte b ->
  count isUpperHexDigit (stringToHex b) = (2 * length b)%nat /\
  count isSpace (stringToHex b) = (length b - 1)%nat /\
  length (stringToHex b) = (2 * length b + (length b - 1))%nat /\
  (exists pairs : list jsstring,
      length pairs = length b /\
      Forall (fun p => length p = 2%nat /\
                       forallb isUpperHexDigit p = true) pairs /\
      stringToHex b = join [32] pairs) /\
  decodeHex (stringToHex b) = Some b.
Proof.
  intros Hb. rewrite (stringToHex_canonical b Hb).
  destruct (canonicalHex_counts b Hb) as (H1 & H2 & H3).
  repeat split; auto.
  - exists (map hexPair b). repeat split.
    + apply length_map.
    + apply Forall_forall. intros p Hp. apply in_map_iff in Hp as (c & <- & Hc).
      split; [reflexivity|]. apply hexPair_upper.
      rewrite Forall_forall in Hb. apply Hb, Hc.
  - apply decodeHex_canonical, Hb.
Qed.

Example stringToHex_Hello :
  stringToHex (js "Hello") = js "48 65 6C 6C 6F".
Proof. reflexivity. Qed.

Example stringToHex_control_characters :
  stringToHex [13; 10; 0; 255] = js "0D 0A 00 FF".
Proof. reflexivity. Qed.

(** Outside the byte range the digits are no longer two per element. *)
Example stringToHex_wide :
  stringToHex [20013] = js "4E2D".
Proof. reflexivity. Qed.

Lemma stringToHex_roundtrip_witness :
  Forall isByte (js "Hello") /\
  decodeHex (stringToHex (js "Hello")) = Some (js "Hello").
Proof.
  assert (Hb : Forall isByte (js "Hello")).
  { repeat constructor; unfold isByte; simpl; lia. }
  split; [exact Hb|].
  apply (stringToHex_roundtrip (js "Hello") Hb).
Defined.

(* ================================================================== *)
(** ** Properties of the handlers *)
(* ================================================================== *)

Lemma falsy_false (s : jsstring) : s <> js "" -> falsy s = false.
Proof. destruct s; [intros E; contradiction E; reflexivity | reflexivity]. Qed.

Section HandlerFacts.
Context `{Unicode}.

(** The shape of [send] once its guard has let it through. *)
Lemma send_unfold (st : State) :
  sendText st <> js "" -> connected st = true ->
  send st =
  Await st
    (send_data (sendText st ++ newlineSuffix (serial (config st)))
               (hex_mode (serial (config st))))
    (fun r s =>
       match r with
       | Resolved _ =>
           NewDate (fun now =>
             let s1 := push [txEntry now s] s in
             let s2 := if negb (terminal_mode (display (config s1)))
                       then set_sendText (js "") s1 else s1 in
             if auto_scroll (display (config s2)) then scrollToBottom s2
             else Done s2)
       | Rejected e => Emit (Alert (msg_send_failed ++ e)) (Done s)
       end).
Proof.
  intros Htext Hconn. unfold send.
  rewrite (falsy_false _ Htext), Hconn. reflexivity.
Qed.

(** C9: [send] while disconnected, or with an empty input string, does
    nothing at all: it is the finished handler on the unchanged state,
    so it issues no command, appends no entry and leaves every [ref]
    (among them [sendText], [dataLog] and [config]) as it was. *)
Theorem send_noop (st : State) :
  sendText st = js "" \/ connected st = false ->
  send st = Done st /\
  forall w, run w (send st) = (st, []).
Proof.
  intros Hguard.
  assert (E : send st = Done st).
  { unfold send. destruct Hguard as [-> | ->]; [reflexivity|].
    rewrite orb_true_r. reflexivity. }
  split; [exact E|]. intros w. rewrite E. reflexivity.
Qed.

(** C3: when the [send_data] call of [send] fails, no entry is appended
    and nothing is mutated: the whole state (so [sendText], [dataLog]
    and [config]) is as before, and the error is shown in an alert.
    This holds as well when the state has changed while the call was
    pending: the resumed handler only raises the alert. *)
Theorem send_failure_no_mutation (w : env) (st : State) (e : jsstring) :
  sendText st <> js "" -> connected st = true ->
  answer w (send_data (sendText st ++ newlineSuffix (serial (config st)))
                      (hex_mode (serial (config st)))) = Rejected e ->
  run w (send st) =
    (st, [Invoked (send_data
                     (sendText st ++ newlineSuffix (serial (config st)))
                     (hex_mode (serial (config st))));
          Alert (msg_send_failed ++ e)]) /\
  exists k,
    send st =
      Await st (send_data (sendText st ++ newlineSuffix (serial (config st)))
                          (hex_mode (serial (config st)))) k /\
    forall e' s', k (Rejected e') s' =
                  Emit (Alert (msg_send_failed ++ e')) (Done s').
Proof.
  intros Htext Hconn Hfail. rewrite (send_unfold st Htext Hconn). split.
  - cbn [run]. rewrite Hfail. reflexivity.
  - eexists. split; [reflexivity|]. reflexivity.
Qed.

(** C6: a poll tick whose read resolves to no entries is a success that
    changes nothing: the state is the same and nothing is logged to the
    console or scrolled.  The log differs after a tick only if the read
    resolved to at least one entry, and then those entries were
    appended. *)
Theorem pollTick_empty_read (w : env) (st : State) :
  (answer w read_data = Resolved [] ->
   run w (pollTick st) = (st, [Invoked read_data])) /\
  (exists k,
      pollTick st = Await st read_data k /\
      forall s', k (Resolved []) s' = Done s') /\
  (dataLog (finalState w (pollTick st)) <> dataLog st ->
   exists entry entries,
     answer w read_data = Resolved (entry :: entries) /\
     dataLog (finalState w (pollTick st)) = dataLog st ++ entry :: entries).
Proof.
  split; [|split].
  - intros Hread. unfold pollTick, pollTickResume. cbn [run].
    rewrite Hread. reflexivity.
  - eexists. split; [reflexivity|]. reflexivity.
  - unfold finalState, pollTick, pollTickResume. cbn [run].
    destruct (answer w read_data) as [[|entry entries]|e]; cbn.
    + intros Hne; contradiction Hne; reflexivity.
    + intros _. exists entry, entries. split; [reflexivity|].
      destruct (auto_scroll (display (config st))); reflexivity.
    + intros Hne; contradiction Hne; reflexivity.
Qed.

(** C7, as the code has it: when the enumeration call fails,
    [refreshPorts] leaves the port list (and the rest of the state) as
    it was and writes the error to the console; it does not abort.  The
    list is therefore empty afterwards only if it was empty before. *)
Theorem refreshPorts_failure_keeps_ports (w : env) (st : State)
  (e : jsstring) :
  answer w list_ports = Rejected e ->
  run w (refreshPorts st) =
    (st, [Invoked list_ports; ConsoleError msg_list_ports_failed e]) /\
  ports (finalState w (refreshPorts st)) = ports st.
Proof.
  intros Hfail. unfold finalState, refreshPorts. cbn [run].
  rewrite Hfail. split; reflexivity.
Qed.

(** C8, as the code has it: when loading the persisted configuration
    fails, [loadConfig] leaves the state as it was and writes the error
    to the console; it does not abort and it shows no alert.  At
    startup, in [onMounted], the configuration therefore stays the
    built-in default: port [""], 115200 baud, 8 data bits, 1 stop bit,
    parity [none], hex mode off. *)
Theorem loadConfig_failure_keeps_default (w : env) (e : jsstring) :
  answer w get_config = Rejected e ->
  (forall st, run w (loadConfig st) =
     (st, [Invoked get_config; ConsoleError msg_load_config_failed e])) /\
  config (finalState w (loadConfig initialState)) = defaultConfig /\
  config (finalState w (onMounted initialState)) = defaultConfig /\
  In (ConsoleError msg_load_config_failed e)
     (trace w (onMounted initialState)) /\
  existsb isAlert (trace w (onMounted initialState)) = false /\
  port (serial defaultConfig) = js "" /\
  baud_rate (serial defaultConfig) = 115200 /\
  data_bits (serial defaultConfig) = 8 /\
  stop_bits (serial defaultConfig) = 1 /\
  parity (serial defaultConfig) = js "none" /\
  hex_mode (serial defaultConfig) = false.
Proof.
  intros Hfail.
  assert (Hload : forall st, run w (loadConfig st) =
     (st, [Invoked get_config; ConsoleError msg_load_config_failed e])).
  { intros st. unfold loadConfig. cbn [run]. rewrite Hfail. reflexivity. }
  split; [exact Hload|]. split.
  { unfold finalState. rewrite Hload. reflexivity. }
  assert (Hrun : exists s out,
    run w (onMounted initialState) =
      (s, Invoked get_config :: ConsoleError msg_load_config_failed e :: out)
    /\ config s = defaultConfig /\ existsb isAlert out = false).
  { unfold onMounted, loadConfig, refreshPorts. cbn [bind run].
    rewrite Hfail. cbn [bind run].
    destruct (answer w list_ports) as [ps|e']; cbn [bind run];
      eexists; eexists; (split; [reflexivity|]); split; reflexivity. }
  destruct Hrun as (s & out & Hrun & Hcfg & Hquiet).
  unfold finalState, trace. rewrite Hrun. cbn [fst snd].
  split; [exact Hcfg|]. split; [right; left; reflexivity|].
  split; [exact Hquiet|]. repeat split.
Qed.

(** C4, as the code has it: in text mode the payload that [send]
    forwards is the input string followed by the configured newline:
    CR LF, LF or CR for the newline types [crlf], [lf] and [cr] when
    [append_newline] is set, and nothing when it is not set or the type
    is none of the three.  Nothing is escaped and nothing else is added
    or removed. *)
Theorem send_text_payload (st : State) :
  sendText st <> js "" -> connected st = true ->
  hex_mode (serial (config st)) = false ->
  firstSend (send st) =
    Some (sendText st ++ newlineSuffix (serial (config st)), false) /\
  (append_newline (serial (config st)) = false ->
   newlineSuffix (serial (config st)) = []) /\
  (append_newline (serial (config st)) = true ->
   (newline_type (serial (config st)) = js "crlf" ->
    newlineSuffix (serial (config st)) = [13; 10]) /\
   (newline_type (serial (config st)) = js "lf" ->
    newlineSuffix (serial (config st)) = [10]) /\
   (newline_type (serial (config st)) = js "cr" ->
    newlineSuffix (serial (config st)) = [13]) /\
   (newline_type (serial (config st)) <> js "crlf" ->
    newline_type (serial (config st)) <> js "lf" ->
    newline_type (serial (config st)) <> js "cr" ->
    newlineSuffix (serial (config st)) = [])).
Proof.
  intros Htext Hconn Hmode. split; [|split].
  - rewrite (send_unfold st Htext Hconn), Hmode. reflexivity.
  - unfold newlineSuffix. intros ->. reflexivity.
  - unfold newlineSuffix. intros ->.
    repeat split.
    + intros ->. reflexivity.
    + intros ->. reflexivity.
    + intros ->. reflexivity.
    + intros H1 H2 H3.
      destruct (str_eqb _ (js "crlf")) eqn:E1;
        [apply str_eqb_eq in E1; contradiction|].
      destruct (str_eqb _ (js "lf")) eqn:E2;
        [apply str_eqb_eq in E2; contradiction|].
      destruct (str_eqb _ (js "cr")) eqn:E3;
        [apply str_eqb_eq in E3; contradiction|].
      reflexivity.
Qed.

(** The stretch of [send] that follows a resolved [send_data]: it
    ends the handler, on the state of that moment. *)
Lemma send_resume (st : State) :
  sendText st <> js "" -> connected st = true ->
  exists k,
    send st =
      Await st (send_data (sendText st ++ newlineSuffix (serial (config st)))
                          (hex_mode (serial (config st)))) k /\
    (forall (h : host) (s' : State),
       exists out,
         segment h (k (Resolved tt) s') =
           (if terminal_mode (display (config s'))
            then push [txEntry (clock h) s'] s'
            else set_sendText (js "") (push [txEntry (clock h) s'] s'),
            out, None)) /\
    (forall w : env,
       answer w (send_data
                   (sendText st ++ newlineSuffix (serial (config st)))
                   (hex_mode (serial (config st)))) = Resolved tt ->
       finalState w (send st) =
         fst (fst (segment (sync w) (k (Resolved tt) st)))).
Proof.
  intros Htext Hconn. eexists. split; [apply (send_unfold st Htext Hconn)|].
  split.
  - intros h s'. cbn [segment].
    destruct (terminal_mode (display (config s'))) eqn:Et;
      destruct (auto_scroll (display (config s'))) eqn:Ea;
      cbn; rewrite ?Et, ?Ea; cbn; rewrite ?Ea; cbn;
      eexists; reflexivity.
  - intros w Hok. unfold finalState.
    rewrite (send_unfold st Htext Hconn). cbn [run segment].
    rewrite Hok. cbn [run].
    destruct (terminal_mode (display (config st))) eqn:Et;
      destruct (auto_scroll (display (config st))) eqn:Ea;
      cbn; rewrite ?Et, ?Ea; cbn; rewrite ?Ea; reflexivity.
Qed.

(** C1, as the code has it: when the [send_data] call of [send]
    resolves, exactly one entry with direction [tx] is appended to the
    log as it is at that moment.  The entry is built from the state at
    that moment, not from the payload: its data field is the content of
    the input box, and its hex field is that content itself if hex mode
    is on and [stringToHex] of it otherwise, which for a content of
    bytes is its canonical encoding, without the appended newline.  So
    with ["48 65 6C 6C 6F"] in the box and hex mode on, the entry has
    that same hex field.  A run with nothing in between resumes on the
    state of the call, and then the content is the input that was
    sent. *)
Theorem send_success_appends_tx (st : State) :
  sendText st <> js "" -> connected st = true ->
  exists k,
    send st =
      Await st (send_data (sendText st ++ newlineSuffix (serial (config st)))
                          (hex_mode (serial (config st)))) k /\
    (forall (h : host) (s' : State),
       exists entry out final,
         segment h (k (Resolved tt) s') = (final, out, None) /\
         dataLog final = dataLog s' ++ [entry] /\
         direction entry = js "tx" /\
         data entry = sendText s' /\
         (hex_mode (serial (config s')) = true ->
          hex entry = sendText s') /\
         (hex_mode (serial (config s')) = false ->
          hex entry = stringToHex (sendText s') /\
          (Forall isByte (sendText s') ->
           hex entry = canonicalHex (sendText s'))) /\
         (hex_mode (serial (config s')) = true ->
          sendText s' = js "48 65 6C 6C 6F" ->
          hex entry = js "48 65 6C 6C 6F")) /\
    (forall w : env,
       answer w (send_data
                   (sendText st ++ newlineSuffix (serial (config st)))
                   (hex_mode (serial (config st)))) = Resolved tt ->
       finalState w (send st) =
         fst (fst (segment (sync w) (k (Resolved tt) st)))).
Proof.
  intros Htext Hconn.
  destruct (send_resume st Htext Hconn) as (k & Hsend & Hresume & Hrun).
  exists k. split; [exact Hsend|]. split; [|exact Hrun].
  intros h s'. destruct (Hresume h s') as [out Hseg].
  exists (txEntry (clock h) s'), out. eexists.
  split; [exact Hseg|]. split.
  - destruct (terminal_mode (display (config s'))); reflexivity.
  - unfold txEntry; cbn [direction data hex].
    split; [reflexivity|]. split; [reflexivity|]. split; [|split].
    + intros ->. reflexivity.
    + intros ->. split; [reflexivity|].
      intros Hb. apply stringToHex_canonical, Hb.
    + intros -> E. exact E.
Qed.

(** A key event with a one-character key takes the third branch of
    [handleTerminalInput], whatever its modifiers. *)
Lemma terminalChar_single (c : Z) (ctrl : bool) :
  terminalChar {| key := [c]; ctrlKey := ctrl |} = Some [c].
Proof.
  unfold terminalChar. cbn.
  destruct (c =? 69); destruct (c =? 66); reflexivity.
Qed.

Lemma terminalChar_enter (ctrl : bool) :
  terminalChar {| key := js "Enter"; ctrlKey := ctrl |} = Some [13].
Proof. reflexivity. Qed.

Lemma terminalChar_backspace (ctrl : bool) :
  terminalChar {| key := js "Backspace"; ctrlKey := ctrl |} = Some [127].
Proof. reflexivity. Qed.

(** A named key held with Ctrl reaches the branch meant for Ctrl+A to
    Ctrl+Z, which compares the whole key name. *)
Lemma terminalChar_ctrl_arrow :
  terminalChar {| key := js "ArrowUp"; ctrlKey := true |} = Some [1].
Proof.
  unfold terminalChar. cbn [key ctrlKey].
  rewrite toLowerCase_ascii
    by (apply isAsciib_Forall; vm_compute; reflexivity).
  vm_compute. reflexivity.
Qed.

(** What [handleTerminalInput] sends is the character chosen for the
    key, always in text mode, and it never touches the data log. *)
Lemma handleTerminalInput_sends (e : KeyboardEvent) (st : State)
  (c : jsstring) (mode : bool) :
  firstSend (handleTerminalInput e st) = Some (c, mode) ->
  terminalChar e = Some c /\ mode = false.
Proof.
  unfold handleTerminalInput.
  destruct (negb (connected st)
            || negb (terminal_mode (display (config st))));
    [discriminate|].
  cbn [firstSend]. destruct (terminalChar e) as [char|]; [|discriminate].
  cbn [firstSend]. intros E. injection E as <- <-. split; reflexivity.
Qed.

Lemma handleTerminalInput_keeps_log (w : env) (e : KeyboardEvent)
  (st : State) :
  dataLog (finalState w (handleTerminalInput e st)) = dataLog st.
Proof.
  unfold finalState, handleTerminalInput.
  destruct (negb (connected st)
            || negb (terminal_mode (display (config st))));
    [reflexivity|].
  cbn [run]. destruct (terminalChar e) as [char|]; [|reflexivity].
  cbn [run]. destruct (answer w (send_data char false)); reflexivity.
Qed.

(** C10 on the code: with Ctrl held, a letter key still has a
    one-character [key], so [handleTerminalInput] sends the letter
    itself in text mode and not the control code that the branch
    commented "Ctrl+A to Ctrl+Z" computes. *)
Theorem terminal_ctrl_letter_sends_letter (st : State) (c : Z) :
  connected st = true -> terminal_mode (display (config st)) = true ->
  97 <= c <= 122 ->
  firstSend (handleTerminalInput {| key := [c]; ctrlKey := true |} st)
    = Some ([c], false) /\
  [c] <> fromCharCode (Some (c - 96)).
Proof.
  intros Hconn Hterm Hc. split.
  - unfold handleTerminalInput. rewrite Hconn, Hterm.
    rewrite terminalChar_single. reflexivity.
  - unfold fromCharCode, toUint16. intros E. injection E as E.
    rewrite Z.mod_small in E by lia. lia.
Qed.

End HandlerFacts.

(* ================================================================== *)
(** ** The data log only grows *)
(* ================================================================== *)

Lemma extends_refl (l : list DataEntry) : extends l l.
Proof. exists []. rewrite app_nil_r. reflexivity. Qed.

Lemma extends_app (l more : list DataEntry) : extends l (l ++ more).
Proof. exists more. reflexivity. Qed.

Lemma extends_trans (l1 l2 l3 : list DataEntry) :
  extends l1 l2 -> extends l2 l3 -> extends l1 l3.
Proof.
  intros [a ->] [b ->]. exists (a ++ b). rewrite app_assoc. reflexivity.
Qed.

Create HintDb log.
#[local] Hint Resolve extends_refl extends_app : log.

Lemma logGrows_weaken (l0 l : list DataEntry) (t : task) :
  extends l0 l -> logGrows l t -> logGrows l0 t.
Proof.
  intros Hl. induction t as [s|e t IH|k IH|k IH|s c k IH]; cbn [logGrows].
  - apply extends_trans, Hl.
  - exact IH.
  - intros Hk d. apply IH, Hk.
  - intros Hk id. apply IH, Hk.
  - intros [Hs Hk]. split; [exact (extends_trans _ _ _ Hl Hs) | exact Hk].
Qed.

Lemma logGrows_bind (l : list DataEntry) (t : task) (f : State -> task) :
  logGrows l t -> (forall s, logGrows (dataLog s) (f s)) ->
  logGrows l (bind t f).
Proof.
  intros Ht Hf. revert l Ht.
  induction t as [s|e t IH|k IH|k IH|s c k IH]; intros l; cbn [logGrows bind].
  - intros Hs. exact (logGrows_weaken _ _ _ Hs (Hf s)).
  - apply IH.
  - intros Hk d. apply IH, Hk.
  - intros Hk id. apply IH, Hk.
  - intros [Hs Hk]. split; [exact Hs|]. intros r s'. apply IH, Hk.
Qed.

(** A finished handler: the log of the final state is what counts. *)
Lemma logGrows_run (w : env) (l : list DataEntry) (t : task) :
  logGrows l t -> extends l (dataLog (finalState w t)).
Proof.
  unfold finalState. revert l.
  induction t as [s|e t IH|k IH|k IH|s c k IH]; intros l; cbn [logGrows run].
  - auto.
  - intros Ht. specialize (IH l Ht). destruct (run w t). exact IH.
  - intros Hk. apply IH, Hk.
  - intros Hk. apply IH, Hk.
  - intros [Hs Hk].
    specialize (IH (answer w c) s (dataLog s) (Hk (answer w c) s)).
    destruct (run w (k (answer w c) s)). cbn [fst] in *.
    exact (extends_trans _ _ _ Hs IH).
Qed.

(** One stretch: the log grows, and what stays suspended keeps it
    growing. *)
Lemma logGrows_segment (h : host) (l : list DataEntry) (t : task) :
  logGrows l t ->
  extends l (dataLog (fst (fst (segment h t)))) /\
  Forall growing (optionList (snd (segment h t))).
Proof.
  revert l.
  induction t as [s|e t IH|k IH|k IH|s c k IH]; intros l;
    cbn [logGrows segment].
  - intros Hs. split; [exact Hs | constructor].
  - intros Ht. specialize (IH l Ht).
    destruct (segment h t) as [[s out] p]. exact IH.
  - intros Hk. apply IH, Hk.
  - intros Hk. apply IH, Hk.
  - intros [Hs Hk]. split; [exact Hs|].
    constructor; [exact Hk | constructor].
Qed.

Section LogFacts.
Context `{Unicode}.

Ltac log_cases :=
  repeat match goal with
         | |- logGrows _ (if ?b then _ else _) => destruct b
         | |- logGrows _ (match ?x with _ => _ end) => destruct x
         end.

Ltac log_solve :=
  repeat (cbn [logGrows scrollToBottom]; log_cases;
          try match goal with
              | |- _ /\ _ => split
              | |- forall _, _ => intro
              end);
  cbn;
  repeat match goal with
         | |- context [if ?b then _ else _] => destruct b; cbn
         end;
  auto with log.

Lemma saveConfig_logGrows (st : State) : logGrows (dataLog st) (saveConfig st).
Proof. unfold saveConfig. log_solve. Qed.

Lemma loadConfig_logGrows (st : State) : logGrows (dataLog st) (loadConfig st).
Proof. unfold loadConfig. log_solve. Qed.

Lemma refreshPorts_logGrows (st : State) :
  logGrows (dataLog st) (refreshPorts st).
Proof. unfold refreshPorts. log_solve. Qed.

Lemma pollTick_logGrows (st : State) : logGrows (dataLog st) (pollTick st).
Proof. unfold pollTick, pollTickResume. log_solve. Qed.

Lemma startPolling_logGrows (st : State) :
  logGrows (dataLog st) (startPolling st).
Proof. unfold startPolling. log_solve. Qed.

Lemma stopPolling_logGrows (st : State) :
  logGrows (dataLog st) (stopPolling st).
Proof. unfold stopPolling. log_solve. Qed.

Lemma connect_logGrows (st : State) : logGrows (dataLog st) (connect st).
Proof.
  unfold connect. cbn [logGrows]. split; [auto with log|].
  intros [u|e] s.
  - apply logGrows_bind.
    + apply (startPolling_logGrows (set_connected true s)).
    + apply saveConfig_logGrows.
  - cbn. auto with log.
Qed.

Lemma disconnect_logGrows (st : State) :
  logGrows (dataLog st) (disconnect st).
Proof.
  unfold disconnect. apply logGrows_bind.
  - apply stopPolling_logGrows.
  - intros s. log_solve.
Qed.

Lemma send_logGrows (st : State) : logGrows (dataLog st) (send st).
Proof. unfold send. log_solve. Qed.

Lemma handleTerminalInput_logGrows (e : KeyboardEvent) (st : State) :
  logGrows (dataLog st) (handleTerminalInput e st).
Proof. unfold handleTerminalInput. log_solve. Qed.

Lemma focusTerminal_logGrows (dom : FocusContext) (st : State) :
  logGrows (dataLog st) (focusTerminal dom st).
Proof. unfold focusTerminal. log_solve. Qed.

Lemma saveLog_logGrows (st : State) : logGrows (dataLog st) (saveLog st).
Proof. unfold saveLog. log_solve. Qed.

Lemma onMounted_logGrows (st : State) : logGrows (dataLog st) (onMounted st).
Proof.
  unfold onMounted. apply logGrows_bind; [apply loadConfig_logGrows|].
  intros s1. apply logGrows_bind; [apply refreshPorts_logGrows|].
  intros s2. cbn. auto with log.
Qed.

Lemma onUnmounted_logGrows (st : State) :
  logGrows (dataLog st) (onUnmounted st).
Proof.
  unfold onUnmounted. apply logGrows_bind; [apply stopPolling_logGrows|].
  intros s1. cbn. auto with log.
Qed.

(** Every handler but [clearLog] only appends to the log, in each of
    its stretches. *)
Lemma handler_logGrows (a : action) (st : State) :
  a <> DoClearLog -> logGrows (dataLog st) (handler a st).
Proof.
  intros Ha. destruct a; cbn [handler];
    try (cbn; auto with log; fail).
  - apply refreshPorts_logGrows.
  - apply connect_logGrows.
  - apply disconnect_logGrows.
  - apply pollTick_logGrows.
  - apply send_logGrows.
  - contradiction Ha; reflexivity.
  - apply handleTerminalInput_logGrows.
  - apply focusTerminal_logGrows.
  - apply saveLog_logGrows.
  - unfold handleKeydown. log_solve.
  - unfold findNext. log_solve.
  - unfold findPrev. log_solve.
  - apply onMounted_logGrows.
  - apply onUnmounted_logGrows.
  - apply saveConfig_logGrows.
  - unfold watchTerminalMode. destruct newVal;
      [apply focusTerminal_logGrows | cbn; auto with log].
  - unfold baudSelectChange. log_solve.
  - unfold baudInput. log_solve.
Qed.

(** Whatever waits for the back end keeps the log growing. *)
Lemma reachable_growing (sys : system) :
  reachable sys -> Forall growing (pending sys).
Proof.
  induction 1 as [|sys l sys' Hreach IH Hstep]; [constructor|].
  destruct Hstep as [a h sys s out p Hseg | h sys before c k after r s out p Hp Hseg];
    cbn [pending].
  - apply Forall_app. split; [exact IH|].
    assert (Hg : logGrows (dataLog (current sys)) (handler a (current sys))
                 \/ a = DoClearLog).
    { destruct a; try (left; apply handler_logGrows; discriminate).
      right; reflexivity. }
    destruct Hg as [Hg | ->].
    + pose proof (logGrows_segment h _ _ Hg) as [_ Hp].
      rewrite Hseg in Hp. exact Hp.
    + cbn in Hseg. injection Hseg as _ _ <-. constructor.
  - rewrite Hp in IH. apply Forall_app in IH as [Hb Hrest].
    inversion Hrest as [|x xs Hk Ha]; subst.
    apply Forall_app. split; [exact Hb|].
    apply Forall_app. split; [exact Ha|].
    pose proof (logGrows_segment h _ _ (Hk r (current sys))) as [_ Hq].
    rewrite Hseg in Hq. exact Hq.
Qed.

(** C5: the data log is append-only except for the explicit clearing.
    From any state the component can reach, a stretch of a handler,
    whether it starts on a user action, a poll tick, a lifecycle hook or
    a watcher, or resumes when a command settles, leaves a log that
    extends the previous one, unless it is the start of [clearLog],
    which empties it.  In particular a handler other than [clearLog] run
    to its end extends the log, and [disconnect] leaves it as it is. *)
Theorem dataLog_append_only (sys : system) (l : label) (sys' : system) :
  reachable sys -> step sys l sys' ->
  (l <> Start DoClearLog ->
   extends (dataLog (current sys)) (dataLog (current sys'))) /\
  (l = Start DoClearLog -> dataLog (current sys') = []) /\
  (forall a w st, a <> DoClearLog ->
     extends (dataLog st) (dataLog (finalState w (handler a st)))) /\
  (forall w st, dataLog (finalState w (disconnect st)) = dataLog st).
Proof.
  intros Hreach Hstep. pose proof (reachable_growing sys Hreach) as Hinv.
  repeat split.
  - intros Hl.
    destruct Hstep as [a h sys s out p Hseg
                      | h sys before c k after r s out p Hp Hseg];
      cbn [current].
    + assert (Ha : a <> DoClearLog) by congruence.
      pose proof (logGrows_segment h _ _
                    (handler_logGrows a (current sys) Ha)) as [Hs _].
      rewrite Hseg in Hs. exact Hs.
    + rewrite Hp in Hinv. apply Forall_app in Hinv as [_ Hrest].
      inversion Hrest as [|x xs Hk Ha]; subst.
      pose proof (logGrows_segment h _ _ (Hk r (current sys))) as [Hs _].
      rewrite Hseg in Hs. exact Hs.
  - intros ->. inversion Hstep as [a h sys0 s out p Hseg|]; subst.
    cbn in Hseg. injection Hseg as <- _ _. reflexivity.
  - intros a w st Ha. apply logGrows_run, handler_logGrows, Ha.
  - intros w st. unfold finalState, disconnect, stopPolling.
    destruct (pollInterval st) as [id|]; [destruct (timerSet (Some id))|];
      cbn [bind run]; destruct (answer w disconnect_serial); reflexivity.
Qed.

End LogFacts.

(* ================================================================== *)
(** ** The component on concrete inputs *)
(* ================================================================== *)

Example transmitted_Hello :
  transmitted (js "48 65 6C 6C 6F" ++ [13; 10]) true = Some (js "Hello").
Proof. reflexivity. Qed.

Example transmitted_odd_token :
  transmitted (js "AB CD E") true = None.
Proof. reflexivity. Qed.

Lemma send_noop_witness :
  send initialState = Done initialState /\
  forall w, run w (send initialState) = (initialState, []).
Proof. apply (send_noop initialState). left. reflexivity. Defined.

Lemma send_failure_no_mutation_witness :
  finalState specEnv (send (connectedWith (js "AB CD E") hexSettings))
  = connectedWith (js "AB CD E") hexSettings.
Proof.
  unfold finalState.
  rewrite (proj1 (send_failure_no_mutation
                    specEnv (connectedWith (js "AB CD E") hexSettings)
                    (js "InvalidHex")
                    ltac:(discriminate) ltac:(reflexivity)
                    ltac:(reflexivity))).
  reflexivity.
Defined.

Lemma pollTick_empty_read_witness :
  run specEnv (pollTick initialState) = (initialState, [Invoked read_data]).
Proof.
  apply (proj1 (pollTick_empty_read specEnv initialState)). reflexivity.
Defined.

Lemma refreshPorts_failure_keeps_ports_witness :
  ports (finalState (failingEnv (js "DeviceError"))
                    (refreshPorts (set_ports [com3] initialState)))
  = [com3].
Proof.
  apply (proj2 (refreshPorts_failure_keeps_ports
                  (failingEnv (js "DeviceError"))
                  (set_ports [com3] initialState) (js "DeviceError")
                  ltac:(reflexivity))).
Defined.

(** C7 as stated fails: a port list obtained earlier is still there
    after a failed enumeration. *)
Lemma refreshPorts_failure_counterexample :
  answer (failingEnv (js "DeviceError")) list_ports
    = Rejected (js "DeviceError") /\
  ports (finalState (failingEnv (js "DeviceError"))
                    (refreshPorts (set_ports [com3] initialState)))
  <> [].
Proof. split; [reflexivity | discriminate]. Qed.

Lemma loadConfig_failure_keeps_default_witness :
  config (finalState (failingEnv (js "IOError")) (onMounted initialState))
  = defaultConfig.
Proof.
  apply (loadConfig_failure_keeps_default
           (failingEnv (js "IOError")) (js "IOError") ltac:(reflexivity)).
Defined.

(** C8 as stated fails: when loading the configuration fails at
    startup nothing is surfaced to the user; the failure only goes to
    the console. *)
Lemma loadConfig_failure_counterexample :
  answer (failingEnv (js "IOError")) get_config = Rejected (js "IOError") /\
  trace (failingEnv (js "IOError")) (onMounted initialState) =
    [Invoked get_config;
     ConsoleError msg_load_config_failed (js "IOError");
     Invoked list_ports;
     ConsoleError msg_list_ports_failed (js "IOError");
     AddKeydownListener] /\
  existsb isAlert (trace (failingEnv (js "IOError"))
                         (onMounted initialState)) = false.
Proof. split; [reflexivity | split; reflexivity]. Qed.

Lemma send_text_payload_witness :
  firstSend (send (connectedWith (js "Hi") (serial defaultConfig)))
  = Some (js "Hi" ++ [13; 10], false).
Proof.
  apply (proj1 (send_text_payload
                  (connectedWith (js "Hi") (serial defaultConfig))
                  ltac:(discriminate) ltac:(reflexivity)
                  ltac:(reflexivity))).
Defined.

(** C4 as stated fails: with the default settings (text mode, newline
    appended, CR LF) the payload forwarded for the input ["Hi"] has two
    more code units than the input. *)
Lemma send_text_payload_counterexample :
  hex_mode (serial (config (connectedWith (js "Hi") (serial defaultConfig))))
    = false /\
  firstSend (send (connectedWith (js "Hi") (serial defaultConfig)))
    = Some ([72; 105; 13; 10], false) /\
  [72; 105; 13; 10]
    <> sendText (connectedWith (js "Hi") (serial defaultConfig)).
Proof. split; [reflexivity | split; [reflexivity | discriminate]]. Qed.

Lemma send_success_appends_tx_witness :
  exists entry,
    dataLog (finalState specEnv
               (send (connectedWith (js "48 65 6C 6C 6F") hexSettings)))
      = [entry] /\
    direction entry = js "tx" /\
    hex entry = js "48 65 6C 6C 6F".
Proof.
  destruct (send_success_appends_tx
              (connectedWith (js "48 65 6C 6C 6F") hexSettings)
              ltac:(discriminate) ltac:(reflexivity))
    as (k & _ & Hresume & Hrun).
  destruct (Hresume noonHost
              (connectedWith (js "48 65 6C 6C 6F") hexSettings))
    as (entry & out & final & Hseg & Hlog & Hdir & _ & _ & _ & Hhex).
  exists entry. split; [|split].
  - rewrite (Hrun specEnv ltac:(reflexivity)).
    change (sync specEnv) with noonHost. rewrite Hseg. exact Hlog.
  - exact Hdir.
  - apply Hhex; reflexivity.
Defined.

(** C1 as stated fails, in both modes.  In text mode with the default
    settings the bytes transmitted for ["Hi"] end in CR LF, and the hex
    field of the entry encodes only ["Hi"].  In hex mode the hex field
    is the input as typed, so lowercase digits stay lowercase.  And when
    the input box is changed to ["Bye"] while the call for ["Hi"] is
    pending, the entry carries ["Bye"] and its encoding. *)
Lemma send_hex_field_counterexample :
  (firstSend (send (connectedWith (js "Hi") (serial defaultConfig)))
     = Some ([72; 105; 13; 10], false) /\
   transmitted [72; 105; 13; 10] false = Some [72; 105; 13; 10] /\
   exists entry,
     dataLog (finalState specEnv
                (send (connectedWith (js "Hi") (serial defaultConfig))))
       = [entry] /\
     hex entry = js "48 69" /\
     hex entry <> canonicalHex [72; 105; 13; 10]) /\
  (firstSend (send (connectedWith (js "4a 4b") hexSettings))
     = Some (js "4a 4b" ++ [13; 10], true) /\
   transmitted (js "4a 4b" ++ [13; 10]) true = Some [74; 75] /\
   exists entry,
     dataLog (finalState specEnv
                (send (connectedWith (js "4a 4b") hexSettings)))
       = [entry] /\
     hex entry = js "4a 4b" /\
     hex entry <> canonicalHex [74; 75]) /\
  (exists k entry,
     send (connectedWith (js "Hi") (serial defaultConfig)) =
       Await (connectedWith (js "Hi") (serial defaultConfig))
             (send_data [72; 105; 13; 10] false) k /\
     dataLog (fst (fst (segment noonHost
                          (k (Resolved tt)
                             (set_sendText (js "Bye")
                                (connectedWith (js "Hi")
                                               (serial defaultConfig)))))))
       = [entry] /\
     data entry = js "Bye" /\
     hex entry = js "42 79 65" /\
     hex entry <> canonicalHex [72; 105; 13; 10]).
Proof.
  split; [|split].
  - split; [reflexivity | split; [reflexivity|]].
    eexists. split; [reflexivity | split; [reflexivity | discriminate]].
  - split; [reflexivity | split; [reflexivity|]].
    eexists. split; [reflexivity | split; [reflexivity | discriminate]].
  - eexists. eexists. split; [reflexivity|].
    split; [reflexivity|]. split; [reflexivity|].
    split; [reflexivity | discriminate].
Qed.

Lemma terminal_ctrl_letter_sends_letter_witness :
  firstSend (handleTerminalInput {| key := js "a"; ctrlKey := true |}
                                 terminalSession)
  = Some (js "a", false).
Proof.
  apply (proj1 (terminal_ctrl_letter_sends_letter
                  terminalSession 97
                  ltac:(reflexivity) ltac:(reflexivity) ltac:(lia))).
Defined.

Lemma dataLog_append_only_witness :
  step boot (Start DoPollTick) polling /\
  step polling (Settle read_data) received /\
  dataLog (current received) = [rxOK] /\
  extends (dataLog (current polling)) (dataLog (current received)).
Proof.
  assert (H1 : step boot (Start DoPollTick) polling).
  { exact (step_start DoPollTick noonHost boot initialState
             [Invoked read_data]
             (Some (Suspended read_data pollTickResume)) eq_refl). }
  assert (H2 : step polling (Settle read_data) received).
  { exact (step_settle noonHost polling [] read_data pollTickResume []
             (Resolved [rxOK]) (push [rxOK] initialState)
             [ScrollToBottom] None eq_refl eq_refl). }
  split; [exact H1|]. split; [exact H2|]. split; [reflexivity|].
  apply (proj1 (dataLog_append_only
                  polling (Settle read_data) received
                  (reach_step boot (Start DoPollTick) polling reach_boot H1)
                  H2)).
  discriminate.
Defined.

(* ================================================================== *)
(** ** Connection and polling *)
(* ================================================================== *)

Lemma set_pollInterval_same (st : State) :
  set_pollInterval (pollInterval st) st = st.
Proof. destruct st; reflexivity. Qed.

Lemma set_terminalBuffer_same (st : State) :
  set_terminalBuffer (terminalBuffer st) st = st.
Proof. destruct st; reflexivity. Qed.

Lemma set_dataLog_same (st : State) : set_dataLog (dataLog st) st = st.
Proof. destruct st; reflexivity. Qed.

Lemma set_sendText_same (st : State) : set_sendText (sendText st) st = st.
Proof. destruct st; reflexivity. Qed.

Section ConnectionFacts.
Context `{Unicode}.

(** When [connect_serial] is rejected, [connect] shows the error in an
    alert and does nothing else: the state is unchanged (so the session
    stays disconnected), no polling timer is started and the
    configuration is not saved. *)
Theorem connect_failure_keeps_state (w : env) (st : State) (e : jsstring) :
  answer w (connectCall st) = Rejected e ->
  run w (connect st) =
    (st, [Invoked (connectCall st); Alert (msg_connect_failed ++ e)]).
Proof.
  intros Hfail. unfold connect. cbn [run].
  change (connect_serial _ _ _ _ _) with (connectCall st).
  rewrite Hfail. reflexivity.
Qed.

(** When [connect_serial] resolves, [connect] marks the session
    connected, keeps a polling timer that already runs and starts one
    otherwise, and then asks the back end to save the configuration;
    whether that save succeeds or not, the configuration, the log and
    the port list are as before. *)
Theorem connect_success_starts_polling (w : env) (st : State) :
  answer w (connectCall st) = Resolved tt ->
  connected (finalState w (connect st)) = true /\
  pollInterval (finalState w (connect st)) =
    (if timerSet (pollInterval st) then pollInterval st
     else Some (timerId (sync w))) /\
  config (finalState w (connect st)) = config st /\
  dataLog (finalState w (connect st)) = dataLog st /\
  ports (finalState w (connect st)) = ports st /\
  invocations (trace w (connect st)) =
    [connectCall st; save_config (config st)].
Proof.
  intros Hok. unfold finalState, trace, connect. cbn [run].
  change (connect_serial _ _ _ _ _) with (connectCall st).
  rewrite Hok. unfold startPolling, saveConfig.
  cbn [pollInterval set_connected].
  destruct (timerSet (pollInterval st)); cbn [bind run];
    match goal with
    | |- context [answer w ?c] => destruct (answer w c)
    end; repeat split; reflexivity.
Qed.

(** A timer started by [startPolling] is the one that [stopPolling]
    clears: after both, no timer is recorded and the id that
    [setInterval] returned has been passed to [clearInterval]. *)
Theorem startPolling_stopPolling (w : env) (st : State) :
  timerSet (pollInterval st) = false -> timerId (sync w) <> 0 ->
  run w (s <- startPolling st ;; stopPolling s) =
    (set_pollInterval None st, [ClearInterval (timerId (sync w))]).
Proof.
  intros Hoff Hid. unfold startPolling. rewrite Hoff. cbn [bind run].
  unfold stopPolling. cbn [pollInterval set_pollInterval timerSet].
  apply Z.eqb_neq in Hid. rewrite Hid. reflexivity.
Qed.

(** What a run of [disconnect] does, case by case. *)
Lemma disconnect_run (w : env) (st : State) :
  run w (disconnect st) =
    let stopped := if timerSet (pollInterval st)
                   then set_pollInterval None st else st in
    let cleared := match pollInterval st with
                   | Some id => if timerSet (pollInterval st)
                                then [ClearInterval id] else []
                   | None => []
                   end in
    match answer w disconnect_serial with
    | Resolved _ =>
        (set_connected false stopped,
         cleared ++ [Invoked disconnect_serial])
    | Rejected e =>
        (stopped,
         cleared ++ [Invoked disconnect_serial;
                     ConsoleError msg_disconnect_failed e])
    end.
Proof.
  unfold disconnect, stopPolling.
  destruct (pollInterval st) as [id|];
    [destruct (timerSet (Some id))|];
    cbn [bind run]; destruct (answer w disconnect_serial); reflexivity.
Qed.

(** [disconnect] stops the polling before it asks the back end, so no
    timer is left whatever the answer.  The session is marked
    disconnected only when [disconnect_serial] resolves; when it is
    rejected the error goes to the console and [connected] keeps its
    value, while the polling stays stopped.  The log and the
    configuration are untouched in both cases. *)
Theorem disconnect_stops_polling (w : env) (st : State) :
  timerSet (pollInterval (finalState w (disconnect st))) = false /\
  (forall u, answer w disconnect_serial = Resolved u ->
     connected (finalState w (disconnect st)) = false) /\
  (forall e, answer w disconnect_serial = Rejected e ->
     connected (finalState w (disconnect st)) = connected st /\
     In (ConsoleError msg_disconnect_failed e) (trace w (disconnect st))) /\
  (forall id, pollInterval st = Some id -> id <> 0 ->
     exists rest, trace w (disconnect st) =
       ClearInterval id :: Invoked disconnect_serial :: rest) /\
  config (finalState w (disconnect st)) = config st /\
  dataLog (finalState w (disconnect st)) = dataLog st.
Proof.
  unfold finalState, trace. rewrite disconnect_run. cbv zeta.
  split; [|split; [|split; [|split; [|split]]]].
  - destruct (timerSet (pollInterval st)) eqn:Ht;
      destruct (answer w disconnect_serial); cbn; try exact Ht; reflexivity.
  - intros u ->. reflexivity.
  - intros e ->. cbn [fst snd]. split.
    + destruct (timerSet (pollInterval st)); reflexivity.
    + apply in_or_app. right. right. left. reflexivity.
  - intros id Hp Hne. rewrite Hp.
    assert (Ht : timerSet (Some id) = true).
    { unfold timerSet. apply Z.eqb_neq in Hne. rewrite Hne. reflexivity. }
    rewrite Ht. destruct (answer w disconnect_serial);
      eexists; reflexivity.
  - destruct (timerSet (pollInterval st));
      destruct (answer w disconnect_serial); reflexivity.
  - destruct (timerSet (pollInterval st));
      destruct (answer w disconnect_serial); reflexivity.
Qed.

(** [onUnmounted] stops the polling and removes the key listener; it
    issues no command, so it does not close the connection, and it
    leaves the rest of the state as it is. *)
Theorem onUnmounted_releases_timer (w : env) (st : State) :
  timerSet (pollInterval (finalState w (onUnmounted st))) = false /\
  invocations (trace w (onUnmounted st)) = [] /\
  connected (finalState w (onUnmounted st)) = connected st /\
  dataLog (finalState w (onUnmounted st)) = dataLog st /\
  exists before,
    trace w (onUnmounted st) = before ++ [RemoveKeydownListener].
Proof.
  unfold finalState, trace, onUnmounted, stopPolling.
  destruct (pollInterval st) as [id|] eqn:Hp.
  - destruct (timerSet (Some id)) eqn:Ht; cbn [bind run fst snd].
    + repeat split; try reflexivity.
      exists [ClearInterval id]. reflexivity.
    + rewrite Hp, Ht. repeat split; try reflexivity.
      exists []. reflexivity.
  - cbn [bind run fst snd]. rewrite Hp. repeat split; try reflexivity.
    exists []. reflexivity.
Qed.


End ConnectionFacts.

(* ================================================================== *)
(** ** The interactive terminal *)
(* ================================================================== *)

Lemma str_eqb_neq (a b : jsstring) : a <> b -> str_eqb a b = false.
Proof.
  intros Hne. destruct (str_eqb a b) eqn:E; [|reflexivity].
  apply str_eqb_eq in E. contradiction.
Qed.

Section TerminalFacts.
Context `{Unicode}.

(** [handleTerminalInput] does nothing at all, not even
    [preventDefault], unless the session is connected and in terminal
    mode.  Otherwise the only part of the state it can change is
    [terminalBuffer], to which it appends the character it sent, and
    only once the back end has accepted it; a rejected send is logged
    and leaves the state as it is. *)
Theorem handleTerminalInput_only_buffer (w : env) (e : KeyboardEvent)
  (st : State) :
  (connected st = false \/ terminal_mode (display (config st)) = false ->
   run w (handleTerminalInput e st) = (st, [])) /\
  (forall char u,
     connected st = true -> terminal_mode (display (config st)) = true ->
     terminalChar e = Some char ->
     answer w (send_data char false) = Resolved u ->
     run w (handleTerminalInput e st) =
       (set_terminalBuffer (terminalBuffer st ++ char) st,
        [PreventDefault; Invoked (send_data char false)])) /\
  (forall char err,
     connected st = true -> terminal_mode (display (config st)) = true ->
     terminalChar e = Some char ->
     answer w (send_data char false) = Rejected err ->
     run w (handleTerminalInput e st) =
       (st, [PreventDefault; Invoked (send_data char false);
             ConsoleError msg_send_failed_log err])) /\
  exists buffer,
    finalState w (handleTerminalInput e st) = set_terminalBuffer buffer st.
Proof.
  unfold finalState, handleTerminalInput. repeat split.
  - intros [-> | ->]; [reflexivity|]. rewrite orb_true_r. reflexivity.
  - intros char u -> -> -> Hok. cbn [negb orb run]. rewrite Hok. reflexivity.
  - intros char err -> -> -> Hfail. cbn [negb orb run]. rewrite Hfail.
    reflexivity.
  - destruct (negb (connected st)
              || negb (terminal_mode (display (config st)))).
    + exists (terminalBuffer st). symmetry. apply set_terminalBuffer_same.
    + cbn [run]. destruct (terminalChar e) as [char|]; cbn [run].
      * destruct (answer w (send_data char false)); cbn [fst].
        -- eexists. reflexivity.
        -- exists (terminalBuffer st). symmetry.
           apply set_terminalBuffer_same.
      * exists (terminalBuffer st). symmetry. apply set_terminalBuffer_same.
Qed.

(** Without Ctrl, the keys that make [handleTerminalInput] send are
    exactly Enter, Backspace and the keys whose name is one code unit;
    every other key (arrows, function keys, modifiers) sends nothing. *)
Theorem terminalChar_without_ctrl (e : KeyboardEvent) :
  ctrlKey e = false ->
  (terminalChar e = None <->
   key e <> js "Enter" /\ key e <> js "Backspace" /\
   length (key e) <> 1%nat).
Proof.
  intros Hctrl. unfold terminalChar. rewrite Hctrl. cbn [andb]. split.
  - destruct (str_eqb (key e) (js "Enter")) eqn:E1; [discriminate|].
    destruct (str_eqb (key e) (js "Backspace")) eqn:E2; [discriminate|].
    destruct (length (key e) =? 1)%nat eqn:E3; [discriminate|].
    intros _. repeat split.
    + intros E. apply str_eqb_eq in E. congruence.
    + intros E. apply str_eqb_eq in E. congruence.
    + apply Nat.eqb_neq, E3.
  - intros (H1 & H2 & H3).
    rewrite (str_eqb_neq _ _ H1), (str_eqb_neq _ _ H2).
    apply Nat.eqb_neq in H3. rewrite H3. reflexivity.
Qed.

End TerminalFacts.

(* ================================================================== *)
(** ** Sending and polling *)
(* ================================================================== *)

Section SendFacts.
Context `{Unicode}.

(** The state after a successful [send]. *)
Lemma send_success_state (w : env) (st : State) :
  sendText st <> js "" -> connected st = true ->
  answer w (sendCall st) = Resolved tt ->
  finalState w (send st) =
    if terminal_mode (display (config st))
    then push [txEntry (clock (sync w)) st] st
    else set_sendText (js "") (push [txEntry (clock (sync w)) st] st).
Proof.
  intros Htext Hconn Hok. unfold finalState.
  rewrite (send_unfold st Htext Hconn). cbn [run].
  change (send_data _ _) with (sendCall st). rewrite Hok. cbn [run].
  destruct (terminal_mode (display (config st))) eqn:Et;
    destruct (auto_scroll (display (config st))) eqn:Ea;
    cbn; rewrite ?Et, ?Ea; cbn; rewrite ?Ea; reflexivity.
Qed.

(** A successful [send] empties the input box outside terminal mode
    and keeps it in terminal mode, on the state of the moment at which
    the call resolves.  So once a [send] has run to its end with
    nothing in between, outside terminal mode, a [send] started then is
    the no-op of the guard.  The guard does not stop a [send] that is
    started while the call of an earlier one is still pending. *)
Theorem send_success_clears_input (w : env) (st : State) :
  sendText st <> js "" -> connected st = true ->
  answer w (sendCall st) = Resolved tt ->
  (terminal_mode (display (config st)) = false ->
   sendText (finalState w (send st)) = js "" /\
   send (finalState w (send st)) = Done (finalState w (send st))) /\
  (terminal_mode (display (config st)) = true ->
   sendText (finalState w (send st)) = sendText st) /\
  (exists k,
     send st = Await st (sendCall st) k /\
     forall (h : host) (s' : State),
       sendText (fst (fst (segment h (k (Resolved tt) s')))) =
         (if terminal_mode (display (config s')) then sendText s'
          else js "") /\
       snd (segment h (k (Resolved tt) s')) = None) /\
  (forall s', sendText s' <> js "" -> connected s' = true ->
     exists k', send s' = Await s' (sendCall s') k').
Proof.
  intros Htext Hconn Hok.
  rewrite (send_success_state w st Htext Hconn Hok).
  split; [|split; [|split]].
  - intros ->. split; reflexivity.
  - intros ->. reflexivity.
  - destruct (send_resume st Htext Hconn) as (k & Hsend & Hresume & _).
    exists k. split; [exact Hsend|]. intros h s'.
    destruct (Hresume h s') as [out Hseg]. rewrite Hseg. cbn [fst snd].
    split; [|reflexivity].
    destruct (terminal_mode (display (config s'))); reflexivity.
  - intros s' Htext' Hconn'.
    destruct (send_resume s' Htext' Hconn') as (k' & Hsend' & _).
    exists k'. exact Hsend'.
Qed.

(** [send] issues at most one command, the [send_data] call with the
    payload of the moment, and can change nothing but the data log and
    the input box. *)
Theorem send_changes_only_log_and_input (w : env) (st : State) :
  (invocations (trace w (send st)) = []
   \/ invocations (trace w (send st)) = [sendCall st]) /\
  exists log text,
    finalState w (send st) = set_sendText text (set_dataLog log st).
Proof.
  unfold finalState, trace, send.
  destruct (falsy (sendText st) || negb (connected st)).
  - split; [left; reflexivity|].
    exists (dataLog st), (sendText st).
    rewrite set_dataLog_same, set_sendText_same. reflexivity.
  - cbn [run]. change (send_data _ _) with (sendCall st).
    destruct (answer w (sendCall st)) as [u|e]; cbn [run].
    + destruct (terminal_mode (display (config st))) eqn:Et;
        destruct (auto_scroll (display (config st))) eqn:Ea;
        cbn; rewrite ?Et, ?Ea; cbn; rewrite ?Ea; cbn;
        (split; [right; reflexivity|]).
      * exists (dataLog st ++ [txEntry (clock (sync w)) st]), (sendText st).
        destruct st; reflexivity.
      * exists (dataLog st ++ [txEntry (clock (sync w)) st]), (sendText st).
        destruct st; reflexivity.
      * eexists. eexists. reflexivity.
      * eexists. eexists. reflexivity.
    + split; [right; reflexivity|].
      exists (dataLog st), (sendText st). cbn [fst].
      rewrite set_dataLog_same, set_sendText_same. reflexivity.
Qed.

(** The send button is disabled exactly when [send] would do nothing:
    the [:disabled] expression of the template and the guard of [send]
    agree, and an enabled button always leads to a [send_data] call. *)
Theorem sendDisabled_iff_noop (st : State) :
  (sendDisabled st = true <-> send st = Done st) /\
  (sendDisabled st = false ->
   exists k, send st = Await st (sendCall st) k).
Proof.
  assert (E : falsy (sendText st) || negb (connected st) = sendDisabled st)
    by (unfold sendDisabled; apply orb_comm).
  unfold send. rewrite E. split; [split|].
  - intros ->. reflexivity.
  - destruct (sendDisabled st); [reflexivity | discriminate].
  - intros ->. eexists. reflexivity.
Qed.

(** A poll tick can change nothing but the data log, and a failed read
    changes nothing at all: the error is written to the console, the
    timer keeps running and the session stays connected. *)
Theorem pollTick_changes_only_log (w : env) (st : State) :
  (exists log, finalState w (pollTick st) = set_dataLog log st) /\
  invocations (trace w (pollTick st)) = [read_data] /\
  (forall e, answer w read_data = Rejected e ->
     run w (pollTick st) =
       (st, [Invoked read_data; ConsoleError msg_read_failed e])).
Proof.
  unfold finalState, trace, pollTick, pollTickResume. cbn [run].
  destruct (answer w read_data) as [[|entry entries]|e]; cbn.
  - repeat split; try discriminate.
    exists (dataLog st). symmetry. apply set_dataLog_same.
  - destruct (auto_scroll (display (config st))); cbn;
      (repeat split; try discriminate); eexists; reflexivity.
  - repeat split.
    + exists (dataLog st). symmetry. apply set_dataLog_same.
    + intros e' E. injection E as <-. reflexivity.
Qed.

End SendFacts.

(* ================================================================== *)
(** ** The baud-rate controls *)
(* ================================================================== *)

Lemma includesBaud_positive (b : Z) : includesBaud b = true -> 0 < b.
Proof.
  unfold includesBaud. intros Hb.
  apply existsb_exists in Hb as (x & Hin & Heq).
  apply Z.eqb_eq in Heq. subst x. unfold baudRates in Hin. simpl in Hin.
  repeat (destruct Hin as [<- | Hin]; [lia|]). contradiction.
Qed.

(** The select shows its "custom" option exactly when the custom
    baud-rate field is displayed. *)
Theorem baudSelect_custom_iff_field (st : State) :
  baudSelectValue st = -1 <-> customBaudShown st = true.
Proof.
  unfold baudSelectValue, customBaudShown.
  destruct (customBaudRate st); [split; reflexivity|].
  destruct (includesBaud (baud_rate (serial (config st)))) eqn:E; cbn.
  - apply includesBaud_positive in E. split; [lia | discriminate].
  - split; reflexivity.
Qed.

(** The baud-rate controls never produce a rate that is zero or
    negative: from a positive rate, choosing any option of the select
    (a standard rate or "custom") and typing anything into the custom
    field leave a positive rate. *)
Theorem baud_controls_keep_positive (st : State) :
  0 < baud_rate (serial (config st)) ->
  (forall v, includesBaud v = true \/ v = -1 ->
     exists s', baudSelectChange v st = Done s' /\
                0 < baud_rate (serial (config s'))) /\
  (forall v, exists s', baudInput v st = Done s' /\
                        0 < baud_rate (serial (config s'))).
Proof.
  intros Hpos. split.
  - intros v [Hv | ->].
    + apply includesBaud_positive in Hv. unfold baudSelectChange.
      replace (v =? -1) with false by (symmetry; apply Z.eqb_neq; lia).
      eexists. split; [reflexivity|]. exact Hv.
    + unfold baudSelectChange. cbn [Z.eqb Pos.eqb].
      cbn [set_customBaudRate config].
      destruct (0 <? custom_baud_rate (serial (config st))) eqn:E;
        eexists; (split; [reflexivity|]); cbn.
      * apply Z.ltb_lt, E.
      * exact Hpos.
  - intros [n|]; unfold baudInput.
    + destruct (0 <? n) eqn:E; eexists; (split; [reflexivity|]); cbn.
      * apply Z.ltb_lt, E.
      * exact Hpos.
    + eexists. split; [reflexivity|]. exact Hpos.
Qed.

(** A custom rate typed into the field is remembered: after a standard
    rate has been selected, selecting "custom" again brings the typed
    rate back. *)
Theorem custom_baud_remembered (st : State) (n v : Z) :
  0 < n -> v <> -1 ->
  exists s',
    (s1 <- baudInput (Some n) st ;;
     s2 <- baudSelectChange v s1 ;;
     baudSelectChange (-1) s2) = Done s' /\
    baud_rate (serial (config s')) = n /\
    custom_baud_rate (serial (config s')) = n /\
    customBaudRate s' = true.
Proof.
  intros Hn Hv. unfold baudInput, baudSelectChange.
  apply Z.ltb_lt in Hn. apply Z.eqb_neq in Hv.
  rewrite Hn. cbn [bind]. rewrite Hv. cbn [bind Z.eqb Pos.eqb].
  cbn. rewrite Hn. eexists. split; [reflexivity|]. cbn. auto.
Qed.

(** The custom field accepts a positive number as both the current and
    the remembered rate, and the value bound to the field is then that
    number.  The field itself stays on the page only if "custom" was
    selected or the number is not one of the standard rates: typing a
    standard rate without "custom" selected removes the field.
    Anything else that is typed (not a number, zero, a negative number)
    changes nothing. *)
Theorem baudInput_roundtrip (st : State) :
  (forall n, 0 < n ->
     exists s', baudInput (Some n) st = Done s' /\
                baud_rate (serial (config s')) = n /\
                custom_baud_rate (serial (config s')) = n /\
                customBaudValue s' = Some n /\
                customBaudShown s' =
                  customBaudRate st || negb (includesBaud n)) /\
  baudInput None st = Done st /\
  (forall n, n <= 0 -> baudInput (Some n) st = Done st).
Proof.
  repeat split.
  - intros n Hn. unfold baudInput. apply Z.ltb_lt in Hn. rewrite Hn.
    eexists. split; [reflexivity|]. unfold customBaudValue, customBaudShown.
    cbn [config serial baud_rate custom_baud_rate update_serial set_config
         with_baud_rate with_custom_baud_rate customBaudRate].
    rewrite Hn. destruct (includesBaud n); cbn [negb andb]; auto.
  - intros n Hn. unfold baudInput.
    replace (0 <? n) with false by (symmetry; apply Z.ltb_ge; lia).
    reflexivity.
Qed.

(* ================================================================== *)
(** ** Searching the log *)
(* ================================================================== *)

Lemma startsWith_map (f : Z -> Z) (s p : jsstring) :
  startsWith s p = true -> startsWith (map f s) (map f p) = true.
Proof.
  revert s. induction p as [|y p IH]; intros s;
    [destruct s; reflexivity|].
  destruct s as [|x s]; [discriminate|]. cbn [startsWith map].
  intros Hs. apply andb_true_iff in Hs as [Hx Hs].
  apply Z.eqb_eq in Hx. subst y. rewrite Z.eqb_refl. exact (IH s Hs).
Qed.

Lemma includes_map (f : Z -> Z) (s sub : jsstring) :
  includes s sub = true -> includes (map f s) (map f sub) = true.
Proof.
  induction s as [|x s IH].
  - cbn [includes map]. rewrite !orb_false_r.
    apply (startsWith_map f [] sub).
  - cbn [includes map]. intros Hs. apply orb_true_iff in Hs as [Hs | Hs].
    + apply orb_true_iff. left. exact (startsWith_map f (x :: s) sub Hs).
    + apply orb_true_iff. right. exact (IH Hs).
Qed.

Section SearchFacts.
Context `{Unicode}.

Lemma filteredLog_searchIndex (v : Z) (st : State) :
  filteredLog (set_searchIndex v st) = filteredLog st.
Proof. reflexivity. Qed.

(** The filtered view shows the whole log when the search text is
    empty, never shows an entry that is not in the log, and filters
    entry by entry: the view of a log that has grown is the old view
    followed by the matching new entries, in their order. *)
Theorem filteredLog_sublist (st : State) :
  (searchText st = js "" -> filteredLog st = dataLog st) /\
  (forall entry, In entry (filteredLog st) -> In entry (dataLog st)) /\
  (length (filteredLog st) <= length (dataLog st))%nat /\
  (forall entries,
     filteredLog (push entries st) =
     filteredLog st ++ filteredLog (set_dataLog entries st)).
Proof.
  unfold filteredLog, push. cbn [searchText dataLog set_dataLog].
  repeat split.
  - intros ->. reflexivity.
  - intros entry. destruct (falsy (searchText st)); [auto|].
    intros Hin. apply filter_In in Hin. apply Hin.
  - destruct (falsy (searchText st)); [lia|]. apply filter_length_le.
  - intros entries. destruct (falsy (searchText st)); [reflexivity|].
    apply filter_app.
Qed.

(** The search finds every entry that contains the search text, for
    Basic Latin text: an entry of the log whose data or hex field
    contains the search text literally is in the filtered view, and so
    is one that contains it up to the case of the letters. *)
Theorem filteredLog_finds (st : State) (entry : DataEntry) :
  In entry (dataLog st) -> Forall isAscii (searchText st) ->
  (Forall isAscii (data entry) ->
   includes (map lowerAscii (data entry))
            (map lowerAscii (searchText st)) = true ->
   In entry (filteredLog st)) /\
  (Forall isAscii (hex entry) ->
   includes (map lowerAscii (hex entry))
            (map lowerAscii (searchText st)) = true ->
   In entry (filteredLog st)) /\
  (Forall isAscii (data entry) ->
   includes (data entry) (searchText st) = true ->
   In entry (filteredLog st)) /\
  (Forall isAscii (hex entry) ->
   includes (hex entry) (searchText st) = true ->
   In entry (filteredLog st)).
Proof.
  intros Hin Hsearch.
  assert (Hdata : Forall isAscii (data entry) ->
                  includes (map lowerAscii (data entry))
                           (map lowerAscii (searchText st)) = true ->
                  In entry (filteredLog st)).
  { intros Hd Hi. unfold filteredLog.
    destruct (falsy (searchText st)); [exact Hin|].
    apply filter_In. split; [exact Hin|].
    rewrite (toLowerCase_ascii _ Hd), (toLowerCase_ascii _ Hsearch), Hi.
    reflexivity. }
  assert (Hhex : Forall isAscii (hex entry) ->
                 includes (map lowerAscii (hex entry))
                          (map lowerAscii (searchText st)) = true ->
                 In entry (filteredLog st)).
  { intros Hh Hi. unfold filteredLog.
    destruct (falsy (searchText st)); [exact Hin|].
    apply filter_In. split; [exact Hin|].
    rewrite (toLowerCase_ascii _ Hh), (toLowerCase_ascii _ Hsearch), Hi.
    apply orb_true_r. }
  split; [exact Hdata|]. split; [exact Hhex|]. split.
  - intros Hd Hi. apply Hdata; [exact Hd|]. apply includes_map, Hi.
  - intros Hh Hi. apply Hhex; [exact Hh|]. apply includes_map, Hi.
Qed.

(** The lines that the template highlights are the lines of the
    filtered view: with a search text every line shown is highlighted,
    without one none is, and an entry of the log that would be
    highlighted is in the view. *)
Theorem highlight_matches_filter (st : State) (entry : DataEntry) :
  (In entry (filteredLog st) ->
   highlight st entry = negb (falsy (searchText st))) /\
  (In entry (dataLog st) -> highlight st entry = true ->
   In entry (filteredLog st)).
Proof.
  unfold highlight, filteredLog.
  destruct (falsy (searchText st)); cbn [negb andb].
  - split; [reflexivity | discriminate].
  - split.
    + intros Hin. apply filter_In in Hin. apply Hin.
    + intros Hin Hh. apply filter_In. split; assumption.
Qed.

(** [findNext] always lands on a line of the filtered view: with a
    search text, a view that is not empty and an index that is at
    least its initial value -1, the new index is within the view.
    With no search text or an empty view nothing changes. *)
Theorem findNext_in_range (st : State) :
  (searchText st <> js "" -> filteredLog st <> [] ->
   -1 <= searchIndex st ->
   exists s', findNext st = Done s' /\
     0 <= searchIndex s' < Z.of_nat (length (filteredLog s')) /\
     s' = set_searchIndex (searchIndex s') st) /\
  (searchText st = js "" \/ filteredLog st = [] -> findNext st = Done st).
Proof.
  split.
  - intros Htext Hview Hidx. unfold findNext.
    rewrite (falsy_false _ Htext).
    destruct (filteredLog st) as [|entry view] eqn:Ev;
      [contradiction Hview; reflexivity|].
    cbn [length Nat.eqb orb]. eexists. split; [reflexivity|].
    rewrite filteredLog_searchIndex, Ev. cbn [searchIndex set_searchIndex].
    split; [|reflexivity]. cbn [length].
    apply Z.rem_bound_pos; lia.
  - unfold findNext. intros [-> | ->]; [reflexivity|].
    cbn [length Nat.eqb]. rewrite orb_true_r. reflexivity.
Qed.

(** [findPrev] lands on a line of the filtered view when the index was
    on one, or was -1 or the size of the view: from the first line, or
    from no line at all, it wraps around to the last one. *)
Theorem findPrev_in_range (st : State) :
  searchText st <> js "" -> filteredLog st <> [] ->
  searchIndex st <= Z.of_nat (length (filteredLog st)) ->
  exists s', findPrev st = Done s' /\
    0 <= searchIndex s' < Z.of_nat (length (filteredLog s')) /\
    (searchIndex st <= 0 ->
     searchIndex s' = Z.of_nat (length (filteredLog st)) - 1).
Proof.
  intros Htext Hview Hidx. unfold findPrev.
  rewrite (falsy_false _ Htext).
  destruct (filteredLog st) as [|entry view] eqn:Ev;
    [contradiction Hview; reflexivity|].
  cbn [length Nat.eqb orb]. eexists. split; [reflexivity|].
  rewrite filteredLog_searchIndex, Ev. cbn [searchIndex set_searchIndex].
  cbn [length] in *.
  destruct (searchIndex st <=? 0) eqn:E.
  - split; [lia | reflexivity].
  - apply Z.leb_gt in E. split; lia.
Qed.

(** [findNext] and [findPrev] undo each other on every line of the
    filtered view. *)
Theorem findNext_findPrev_inverse (st : State) :
  searchText st <> js "" ->
  0 <= searchIndex st < Z.of_nat (length (filteredLog st)) ->
  (s1 <- findNext st ;; findPrev s1) = Done st /\
  (s1 <- findPrev st ;; findNext s1) = Done st.
Proof.
  intros Htext Hidx.
  assert (Hback : forall a b, b = searchIndex st ->
            set_searchIndex b (set_searchIndex a st) = st).
  { intros a b ->. destruct st; reflexivity. }
  assert (Hfalsy : forall a, falsy (searchText (set_searchIndex a st))
                             = false).
  { intros a. exact (falsy_false _ Htext). }
  unfold findNext, findPrev. rewrite (falsy_false _ Htext).
  destruct (filteredLog st) as [|entry view] eqn:Ev;
    [cbn [length] in Hidx; lia|].
  cbn [length Nat.eqb orb bind] in *.
  rewrite !Hfalsy, !filteredLog_searchIndex, Ev.
  cbn [length Nat.eqb orb searchIndex set_searchIndex].
  set (n := Z.of_nat (S (length view))) in *.
  split; f_equal; apply Hback.
  - destruct (Z.eq_dec (searchIndex st + 1) n) as [E | E].
    + rewrite E, Z.rem_same by lia. cbn [Z.leb Z.compare]. lia.
    + rewrite Z.rem_small by lia.
      replace (searchIndex st + 1 <=? 0) with false
        by (symmetry; apply Z.leb_gt; lia).
      lia.
  - destruct (searchIndex st <=? 0) eqn:E0.
    + apply Z.leb_le in E0.
      replace (n - 1 + 1) with n by lia. rewrite Z.rem_same by lia. lia.
    + apply Z.leb_gt in E0.
      replace (searchIndex st - 1 + 1) with (searchIndex st) by lia.
      apply Z.rem_small. lia.
Qed.

(** Closing the search with Ctrl+F clears the search text, so the whole
    log is shown again; closing it with Escape or the close button
    keeps the search text, and the view stays filtered.  Any key other
    than Ctrl+F is ignored by [handleKeydown]. *)
Theorem search_close_and_filter (st : State) :
  (showSearch st = true ->
   exists s', handleKeydown {| key := js "f"; ctrlKey := true |} st =
              Emit PreventDefault (Done s') /\
     showSearch s' = false /\ searchText s' = js "" /\
     filteredLog s' = dataLog st) /\
  (showSearch st = false ->
   handleKeydown {| key := js "f"; ctrlKey := true |} st =
     Emit PreventDefault (Done (set_showSearch true st))) /\
  filteredLog (set_showSearch false st) = filteredLog st /\
  (forall e, ctrlKey e = false \/ key e <> js "f" ->
     handleKeydown e st = Done st).
Proof.
  repeat split.
  - intros Hs. unfold handleKeydown. cbn. rewrite Hs. cbn.
    eexists. split; [reflexivity|]. repeat split.
  - intros Hs. unfold handleKeydown. cbn. rewrite Hs. reflexivity.
  - intros e. unfold handleKeydown. intros [-> | Hk]; [reflexivity|].
    rewrite (str_eqb_neq _ _ Hk), andb_false_r. reflexivity.
Qed.

End SearchFacts.

(* ================================================================== *)
(** ** Saving the log, hex digits and timestamps *)
(* ================================================================== *)

Lemma replaceColonDot_count (s : jsstring) :
  count (Z.eqb 58) (replaceColonDot s) = 0%nat /\
  count (Z.eqb 46) (replaceColonDot s) = 0%nat.
Proof.
  unfold count, replaceColonDot.
  induction s as [|c s [IH1 IH2]]; [split; reflexivity|].
  cbn [map filter].
  destruct (c =? 58) eqn:E1; cbn [orb].
  - cbn. auto.
  - destruct (c =? 46) eqn:E2.
    + cbn. auto.
    + rewrite (Z.eqb_sym 58 c), (Z.eqb_sym 46 c), E1, E2. auto.
Qed.

Section SaveLogFacts.
Context `{Unicode}.

(** [saveLog] never changes the state.  It issues one [save_log]
    command and then one alert, whether the command succeeds or fails.
    The file name has no colon and a single dot, that of [.txt],
    whatever the clock returns, and what is saved is the whole log,
    whatever the search currently shows. *)
Theorem saveLog_keeps_state (w : env) (st : State) :
  finalState w (saveLog st) = st /\
  (exists filename content msg,
     trace w (saveLog st) =
       [Invoked (save_log filename content); Alert msg] /\
     count (Z.eqb 58) filename = 0%nat /\
     count (Z.eqb 46) filename = 1%nat) /\
  (forall text shown,
     trace w (saveLog (set_showSearch shown (set_searchText text st)))
     = trace w (saveLog st)).
Proof.
  unfold finalState, trace, saveLog. cbn [run].
  set (filename := js "serial_log_"
                   ++ replaceColonDot (toISOString (clock (sync w)))
                   ++ js ".txt").
  set (content := join [10] (map (formatEntry (display (config st)))
                                 (dataLog st))).
  assert (Hname : count (Z.eqb 58) filename = 0%nat /\
                  count (Z.eqb 46) filename = 1%nat).
  { unfold filename. rewrite !count_app.
    destruct (replaceColonDot_count (toISOString (clock (sync w))))
      as [-> ->].
    split; reflexivity. }
  repeat split.
  - destruct (answer w (save_log filename content)); reflexivity.
  - destruct (answer w (save_log filename content)) eqn:E;
      exists filename, content; eexists;
      (split; [reflexivity | exact Hname]).
  - intros text shown.
    change (join [10]
              (map (formatEntry
                      (display (config (set_showSearch shown
                                          (set_searchText text st)))))
                   (dataLog (set_showSearch shown
                               (set_searchText text st)))))
      with content.
    destruct (answer w (save_log filename content)); reflexivity.
Qed.

(** In text mode the hex field cannot tell two characters outside the
    Basic Multilingual Plane apart when they share their first
    surrogate: [stringToHex] encodes one code unit per character, the
    first. *)
Theorem stringToHex_surrogate_pair (h l1 l2 : Z) (rest : jsstring) :
  isHighSurrogate h = true ->
  isLowSurrogate l1 = true -> isLowSurrogate l2 = true ->
  stringToHex (h :: l1 :: rest) = stringToHex (h :: l2 :: rest) /\
  Array_from (h :: l1 :: rest) = [h; l1] :: Array_from rest.
Proof.
  intros Hh H1 H2. unfold stringToHex. cbn [Array_from].
  rewrite Hh, H1, H2. cbn [andb map]. split; reflexivity.
Qed.

End SaveLogFacts.

Lemma list_pair_ind (P : jsstring -> Prop) :
  P [] -> (forall c, P [c]) ->
  (forall c d rest, P rest -> P (d :: rest) -> P (c :: d :: rest)) ->
  forall s, P s.
Proof.
  intros H0 H1 H2 s.
  assert (Hboth : P s /\ forall c, P (c :: s)).
  { induction s as [|d s [IHs IHc]].
    - split; [exact H0 | exact H1].
    - split; [apply IHc|]. intros c. apply H2; [exact IHs | apply IHc]. }
  apply Hboth.
Qed.

Lemma countUp_In (n : nat) (from c : Z) :
  from <= c < from + Z.of_nat n -> In c (countUp from n).
Proof.
  revert from. induction n as [|n IH]; intros from Hc; [lia|].
  cbn [countUp]. destruct (Z.eq_dec from c) as [-> | Hne].
  - left. reflexivity.
  - right. apply IH. lia.
Qed.

Lemma allCodeUnits_complete (c : Z) : isCodeUnit c -> In c allCodeUnits.
Proof.
  unfold isCodeUnit, allCodeUnits. intros Hc. apply countUp_In.
  rewrite Z2Nat.id; lia.
Qed.

Lemma forall_codeUnits (P : Z -> bool) :
  forallb P allCodeUnits = true -> forall c, isCodeUnit c -> P c = true.
Proof.
  intros HP c Hc. rewrite forallb_forall in HP.
  apply HP, allCodeUnits_complete, Hc.
Qed.

Lemma toString16_codeUnit_ascii (c : Z) :
  isCodeUnit c -> Forall isAscii (Number_toString 16 c).
Proof.
  intros Hc. apply isAsciib_Forall. revert c Hc.
  apply (forall_codeUnits
           (fun c => forallb isAsciib (Number_toString 16 c))).
  vm_compute. reflexivity.
Qed.

(** Every element of [Array.from(s)] starts with a code unit of [s]. *)
Lemma Array_from_heads (s : jsstring) :
  Forall isCodeUnit s ->
  Forall (fun el => exists c, charCodeAt el 0 = Some c /\ isCodeUnit c)
         (Array_from s).
Proof.
  induction s as [|c|c d rest IHrest IHtail] using list_pair_ind;
    intros Hs.
  - constructor.
  - inversion Hs; subst. constructor; [|constructor].
    exists c. split; [reflexivity | assumption].
  - inversion Hs as [|? ? Hc Htail]; subst. cbn [Array_from].
    destruct (isHighSurrogate c && isLowSurrogate d).
    + constructor.
      * exists c. split; [reflexivity | assumption].
      * apply IHrest. inversion Htail; assumption.
    + constructor.
      * exists c. split; [reflexivity | assumption].
      * apply IHtail, Htail.
Qed.

Lemma join_space_alphabet (tokens : list jsstring) :
  Forall (fun t => isHexToken t = true) tokens ->
  forallb (fun c => isUpperHexDigit c || isSpace c) (join [32] tokens) = true.
Proof.
  assert (Htok : forall t, isHexToken t = true ->
            forallb (fun c => isUpperHexDigit c || isSpace c) t = true).
  { intros t Ht. unfold isHexToken in Ht.
    apply andb_true_iff in Ht as [_ Ht].
    rewrite forallb_forall in *. intros c Hc. rewrite (Ht c Hc).
    reflexivity. }
  induction 1 as [|t tokens Ht Hrest IH]; [reflexivity|].
  destruct tokens as [|t' tokens'].
  - cbn [join]. apply Htok, Ht.
  - change (join [32] (t :: t' :: tokens'))
      with (t ++ [32] ++ join [32] (t' :: tokens')).
    rewrite !forallb_app, (Htok t Ht), IH. reflexivity.
Qed.

Lemma join_cons_nonempty (sep t : jsstring) (rest : list jsstring) :
  t <> [] -> join sep (t :: rest) <> [].
Proof.
  intros Ht. destruct t as [|x t]; [contradiction Ht; reflexivity|].
  destruct rest; cbn [join]; discriminate.
Qed.

Section HexFacts.
Context `{Unicode}.

Lemma hexOfChar_token (el : jsstring) (c : Z) :
  charCodeAt el 0 = Some c -> isCodeUnit c -> isHexToken (hexOfChar el) = true.
Proof.
  intros Hel Hc. unfold hexOfChar. rewrite Hel.
  rewrite toUpperCase_ascii by (apply toString16_codeUnit_ascii, Hc).
  clear Hel. revert c Hc.
  apply (forall_codeUnits
           (fun c => isHexToken
                       (padStart 2 (js "0")
                          (map upperAscii (Number_toString 16 c))))).
  vm_compute. reflexivity.
Qed.

(** On every string, [stringToHex] gives one token of two to four
    uppercase hexadecimal digits per character, with one space between
    two tokens; so its result has no other character, and it is empty
    only for the empty string. *)
Theorem stringToHex_tokens (s : jsstring) :
  Forall isCodeUnit s ->
  (exists tokens,
     stringToHex s = join [32] tokens /\
     length tokens = length (Array_from s) /\
     Forall (fun t => isHexToken t = true) tokens) /\
  forallb (fun c => isUpperHexDigit c || isSpace c) (stringToHex s) = true /\
  (stringToHex s = [] <-> s = []).
Proof.
  intros Hs.
  assert (Htokens : Forall (fun t => isHexToken t = true)
                           (map hexOfChar (Array_from s))).
  { apply Forall_map. eapply Forall_impl; [|apply Array_from_heads, Hs].
    intros el (c & Hel & Hc). exact (hexOfChar_token el c Hel Hc). }
  split; [|split].
  - exists (map hexOfChar (Array_from s)).
    split; [reflexivity|]. split; [apply length_map | exact Htokens].
  - apply join_space_alphabet, Htokens.
  - split; [|intros ->; reflexivity].
    destruct s as [|c s']; [reflexivity|]. intros E. exfalso.
    assert (Hne : exists el els, Array_from (c :: s') = el :: els).
    { cbn [Array_from]. destruct s' as [|d rest]; [eauto|].
      destruct (isHighSurrogate c && isLowSurrogate d); eauto. }
    destruct Hne as (el & els & Hel).
    unfold stringToHex in E. rewrite Hel in *. cbn [map] in *.
    inversion Htokens as [|t ts Ht _]; subst.
    apply (join_cons_nonempty [32] (hexOfChar el) (map hexOfChar els));
      [|exact E].
    intros Hempty. rewrite Hempty in Ht. discriminate.
Qed.


End HexFacts.

(* ================================================================== *)
(** ** What every stretch of a handler preserves *)
(* ================================================================== *)

Section Stretches.
Variable R : State -> State -> Prop.
Hypothesis R_trans : forall s1 s2 s3, R s1 s2 -> R s2 s3 -> R s1 s3.

Lemma stretches_from (s0 s : State) (t : task) :
  R s0 s -> stretches R s t -> stretches R s0 t.
Proof.
  intros Hs. induction t as [s1|e t IH|k IH|k IH|s1 c k IH];
    cbn [stretches].
  - apply R_trans, Hs.
  - exact IH.
  - intros Hk d. apply IH, Hk.
  - intros Hk id. apply IH, Hk.
  - intros [H1 Hk]. split; [exact (R_trans _ _ _ Hs H1) | exact Hk].
Qed.

Lemma stretches_bind (s0 : State) (t : task) (f : State -> task) :
  stretches R s0 t -> (forall s, stretches R s (f s)) ->
  stretches R s0 (bind t f).
Proof.
  intros Ht Hf. revert s0 Ht.
  induction t as [s1|e t IH|k IH|k IH|s1 c k IH]; intros s0;
    cbn [stretches bind].
  - intros Hs. exact (stretches_from _ _ _ Hs (Hf s1)).
  - apply IH.
  - intros Hk d. apply IH, Hk.
  - intros Hk id. apply IH, Hk.
  - intros [Hs Hk]. split; [exact Hs|]. intros r s'. apply IH, Hk.
Qed.

Lemma stretches_run (w : env) (s0 : State) (t : task) :
  stretches R s0 t -> R s0 (finalState w t).
Proof.
  unfold finalState. revert s0.
  induction t as [s1|e t IH|k IH|k IH|s1 c k IH]; intros s0;
    cbn [stretches run].
  - auto.
  - intros Ht. specialize (IH s0 Ht). destruct (run w t). exact IH.
  - intros Hk. apply IH, Hk.
  - intros Hk. apply IH, Hk.
  - intros [Hs Hk].
    specialize (IH (answer w c) s1 s1 (Hk (answer w c) s1)).
    destruct (run w (k (answer w c) s1)). cbn [fst] in *.
    exact (R_trans _ _ _ Hs IH).
Qed.

Lemma stretches_segment (h : host) (s0 : State) (t : task) :
  stretches R s0 t ->
  R s0 (fst (fst (segment h t))) /\
  Forall (resumes R) (optionList (snd (segment h t))).
Proof.
  revert s0.
  induction t as [s1|e t IH|k IH|k IH|s1 c k IH]; intros s0;
    cbn [stretches segment].
  - intros Hs. split; [exact Hs | constructor].
  - intros Ht. specialize (IH s0 Ht).
    destruct (segment h t) as [[s out] p]. exact IH.
  - intros Hk. apply IH, Hk.
  - intros Hk. apply IH, Hk.
  - intros [Hs Hk]. split; [exact Hs|].
    constructor; [exact Hk | constructor].
Qed.

End Stretches.

Lemma indexFrom_refl (s : State) : indexFrom s s.
Proof. unfold indexFrom. auto. Qed.

Lemma indexFrom_trans (s1 s2 s3 : State) :
  indexFrom s1 s2 -> indexFrom s2 s3 -> indexFrom s1 s3.
Proof. unfold indexFrom. auto. Qed.

Lemma sameConnected_refl (s : State) : sameConnected s s.
Proof. reflexivity. Qed.

Lemma sameConnected_trans (s1 s2 s3 : State) :
  sameConnected s1 s2 -> sameConnected s2 s3 -> sameConnected s1 s3.
Proof. unfold sameConnected. congruence. Qed.

Create HintDb stretch.
#[local] Hint Resolve indexFrom_refl sameConnected_refl : stretch.

Lemma join_nil_cons (p : jsstring) (l : list jsstring) :
  join [] (p :: l) = p ++ join [] l.
Proof. destruct l; [symmetry; apply app_nil_r | reflexivity]. Qed.

Lemma join_nil_app (a b : list jsstring) :
  join [] (a ++ b) = join [] a ++ join [] b.
Proof.
  induction a as [|p a IH]; [reflexivity|].
  change ((p :: a) ++ b) with (p :: (a ++ b)).
  rewrite !join_nil_cons, IH, app_assoc. reflexivity.
Qed.

Section StretchFacts.
Context `{Unicode}.

Ltac stretch_cases :=
  repeat match goal with
         | |- stretches _ _ (if ?b then _ else _) => destruct b eqn:?
         | |- stretches _ _ (match ?x with _ => _ end) => destruct x eqn:?
         end.

Ltac stretch_solve :=
  repeat (cbv zeta; cbn [stretches scrollToBottom]; stretch_cases;
          try match goal with
              | |- _ /\ _ => split
              | |- forall _, _ => intro
              end);
  try (unfold indexFrom, sameConnected; cbn;
       repeat match goal with
              | |- context [if ?b then _ else _] => destruct b; cbn
              end;
       auto with stretch; fail).

(** The index of the search never falls below its initial value -1,
    whatever the handlers do and however they interleave; [findNext]
    and [findPrev] are the only handlers that assign it. *)
Lemma handler_indexFrom (a : action) (st : State) :
  stretches indexFrom st (handler a st).
Proof.
  destruct a; cbn [handler];
    try (unfold indexFrom; cbn; auto; fail).
  - unfold refreshPorts. stretch_solve.
  - unfold connect. cbn [stretches]. split; [auto with stretch|].
    intros [u|e] s; [|stretch_solve].
    apply (stretches_bind _ indexFrom_trans).
    + unfold startPolling. stretch_solve.
    + intros s1. unfold saveConfig. stretch_solve.
  - unfold disconnect.
    apply (stretches_bind _ indexFrom_trans).
    + unfold stopPolling. stretch_solve.
    + intros s. stretch_solve.
  - unfold pollTick, pollTickResume. stretch_solve.
  - unfold send. stretch_solve.
  - unfold handleTerminalInput. stretch_solve.
  - unfold focusTerminal. stretch_solve.
  - unfold saveLog. stretch_solve.
  - unfold handleKeydown. stretch_solve.
  - unfold findNext. stretch_solve.
    unfold indexFrom. cbn [searchIndex set_searchIndex]. intros Hidx.
    match goal with
    | E : (_ || (?n =? 0)%nat) = false |- _ =>
        apply orb_false_iff in E as [_ E]; apply Nat.eqb_neq in E
    end.
    pose proof (Z.rem_bound_pos (searchIndex st + 1)
                  (Z.of_nat (length (filteredLog st)))) as Hb.
    lia.
  - unfold findPrev. stretch_solve.
    unfold indexFrom. cbn [searchIndex set_searchIndex]. intros Hidx.
    match goal with
    | E : (_ || (?n =? 0)%nat) = false |- _ =>
        apply orb_false_iff in E as [_ E]; apply Nat.eqb_neq in E
    end.
    destruct (searchIndex st <=? 0) eqn:E0; [lia|].
    apply Z.leb_gt in E0. lia.
  - unfold onMounted.
    apply (stretches_bind _ indexFrom_trans);
      [unfold loadConfig; stretch_solve|].
    intros s1. apply (stretches_bind _ indexFrom_trans);
      [unfold refreshPorts; stretch_solve|].
    intros s2. stretch_solve.
  - unfold onUnmounted.
    apply (stretches_bind _ indexFrom_trans);
      [unfold stopPolling; stretch_solve|].
    intros s1. stretch_solve.
  - unfold watchConfig, saveConfig. stretch_solve.
  - unfold watchTerminalMode, focusTerminal. stretch_solve.
  - unfold baudSelectChange. stretch_solve.
  - unfold baudInput. stretch_solve.
Qed.

Lemma reachable_indexFrom (sys : system) :
  reachable sys ->
  -1 <= searchIndex (current sys) /\
  Forall (resumes indexFrom) (pending sys).
Proof.
  induction 1 as [|sys l sys' Hreach [IHs IHp] Hstep].
  - split; [cbn; lia | constructor].
  - destruct Hstep as [a h sys s out p Hseg
                      | h sys before c k after r s out p Hp Hseg];
      cbn [current pending].
    + pose proof (stretches_segment indexFrom h _ _
                    (handler_indexFrom a (current sys))) as [Hs Hq].
      rewrite Hseg in Hs, Hq. cbn [fst snd] in Hs, Hq.
      split; [exact (Hs IHs)|].
      apply Forall_app. split; assumption.
    + rewrite Hp in IHp. apply Forall_app in IHp as [Hb Hrest].
      inversion Hrest as [|x xs Hk Ha]; subst.
      pose proof (stretches_segment indexFrom h _ _
                    (Hk r (current sys))) as [Hs Hq].
      rewrite Hseg in Hs, Hq. cbn [fst snd] in Hs, Hq.
      split; [exact (Hs IHs)|].
      apply Forall_app. split; [exact Hb|].
      apply Forall_app. split; assumption.
Qed.

(** In every state the component can reach, the index of the search is
    at least -1, its initial value: no handler and no interleaving of
    handlers makes it smaller. *)
Theorem searchIndex_lower_bound (sys : system) :
  reachable sys -> -1 <= searchIndex (current sys).
Proof. intros Hreach. apply (reachable_indexFrom sys Hreach). Qed.

(** Only [connect] and [disconnect] change the connection flag: no
    stretch of any other handler does, whatever the back end answers;
    in particular a failed send or read never marks the session
    disconnected. *)
Theorem connected_only_by_connect (a : action) (w : env) (st : State) :
  a <> DoConnect -> a <> DoDisconnect ->
  stretches sameConnected st (handler a st) /\
  connected (finalState w (handler a st)) = connected st.
Proof.
  intros Hc Hd.
  assert (Hs : stretches sameConnected st (handler a st)).
  { destruct a; cbn [handler];
      try (unfold sameConnected; cbn; auto; fail);
      try (contradiction Hc; reflexivity);
      try (contradiction Hd; reflexivity).
    - unfold refreshPorts. stretch_solve.
    - unfold pollTick, pollTickResume. stretch_solve.
    - unfold send. stretch_solve.
      - unfold handleTerminalInput. stretch_solve.
    - unfold focusTerminal. stretch_solve.
    - unfold saveLog. stretch_solve.
    - unfold handleKeydown. stretch_solve.
    - unfold findNext. stretch_solve.
    - unfold findPrev. stretch_solve.
    - unfold onMounted.
      apply (stretches_bind _ sameConnected_trans);
        [unfold loadConfig; stretch_solve|].
      intros s1.
      apply (stretches_bind _ sameConnected_trans);
        [unfold refreshPorts; stretch_solve|].
      intros s2. stretch_solve.
    - unfold onUnmounted.
      apply (stretches_bind _ sameConnected_trans);
        [unfold stopPolling; stretch_solve|].
      intros s1. stretch_solve.
    - unfold watchConfig, saveConfig. stretch_solve.
    - unfold watchTerminalMode, focusTerminal. stretch_solve.
    - unfold baudSelectChange. stretch_solve.
    - unfold baudInput. stretch_solve. }
  split; [exact Hs|].
  exact (stretches_run sameConnected sameConnected_trans
           w st _ Hs).
Qed.

(** The text of the interactive terminal is only ever extended: after
    any handler other than [clearLog] has run, it is the text shown
    before followed by the data of the entries appended since. *)
Theorem terminalContent_grows (a : action) (w : env) (st : State) :
  a <> DoClearLog ->
  exists more,
    terminalContent (finalState w (handler a st)) = terminalContent st ++ more.
Proof.
  intros Ha.
  destruct (logGrows_run w _ _ (handler_logGrows a st Ha)) as [suffix Hlog].
  exists (join [] (map data suffix)). unfold terminalContent.
  rewrite Hlog, map_app. apply join_nil_app.
Qed.

End StretchFacts.

(* ================================================================== *)
(** ** The further properties on concrete inputs *)
(* ================================================================== *)

Lemma connect_failure_keeps_state_witness :
  finalState (failingEnv (js "busy")) (connect initialState) = initialState.
Proof.
  unfold finalState.
  rewrite (connect_failure_keeps_state
             (failingEnv (js "busy")) initialState (js "busy")
             ltac:(reflexivity)).
  reflexivity.
Defined.

Lemma connect_success_starts_polling_witness :
  connected (finalState specEnv (connect initialState)) = true /\
  pollInterval (finalState specEnv (connect initialState)) = Some 1.
Proof.
  destruct (connect_success_starts_polling specEnv initialState
              ltac:(reflexivity)) as (Hc & Hp & _).
  split; [exact Hc | exact Hp].
Defined.

Lemma startPolling_stopPolling_witness :
  run specEnv (s <- startPolling initialState ;; stopPolling s)
  = (initialState, [ClearInterval 1]).
Proof.
  apply (startPolling_stopPolling specEnv initialState
           ltac:(reflexivity) ltac:(discriminate)).
Defined.

Lemma terminalChar_without_ctrl_witness :
  terminalChar {| key := js "ArrowUp"; ctrlKey := false |} = None.
Proof.
  apply (proj2 (terminalChar_without_ctrl
                  {| key := js "ArrowUp"; ctrlKey := false |}
                  ltac:(reflexivity))).
  repeat split; discriminate.
Defined.

Lemma send_success_clears_input_witness :
  sendText (finalState specEnv
              (send (connectedWith (js "Hi") (serial defaultConfig))))
  = js "".
Proof.
  apply (proj1 (send_success_clears_input
                  specEnv (connectedWith (js "Hi") (serial defaultConfig))
                  ltac:(discriminate) ltac:(reflexivity)
                  ltac:(reflexivity))).
  reflexivity.
Defined.

Lemma baud_controls_keep_positive_witness :
  exists s', baudSelectChange 9600 initialState = Done s' /\
             0 < baud_rate (serial (config s')).
Proof.
  apply (proj1 (baud_controls_keep_positive initialState ltac:(reflexivity))).
  left. reflexivity.
Defined.

Lemma custom_baud_remembered_witness :
  exists s',
    (s1 <- baudInput (Some 250000) initialState ;;
     s2 <- baudSelectChange 9600 s1 ;;
     baudSelectChange (-1) s2) = Done s' /\
    baud_rate (serial (config s')) = 250000.
Proof.
  destruct (custom_baud_remembered initialState 250000 9600
              ltac:(reflexivity) ltac:(discriminate))
    as (s' & Hrun & Hrate & _).
  exists s'. split; [exact Hrun | exact Hrate].
Defined.

Lemma filteredLog_finds_witness :
  In txHello (filteredLog searchingHello).
Proof.
  apply (proj1 (filteredLog_finds searchingHello txHello
                  ltac:(right; left; reflexivity)
                  ltac:(apply isAsciib_Forall; reflexivity))).
  - apply isAsciib_Forall. reflexivity.
  - reflexivity.
Defined.

Lemma findPrev_in_range_witness :
  exists s', findPrev searching = Done s' /\ searchIndex s' = 1.
Proof.
  destruct (findPrev_in_range searching
              ltac:(discriminate) ltac:(discriminate)
              ltac:(vm_compute; discriminate))
    as (s' & Hrun & _ & Hwrap).
  exists s'. split; [exact Hrun|]. apply Hwrap. vm_compute. discriminate.
Defined.

Lemma findNext_findPrev_inverse_witness :
  (s1 <- findNext searching ;; findPrev s1) = Done searching.
Proof.
  apply (proj1 (findNext_findPrev_inverse searching
                  ltac:(discriminate)
                  ltac:(split; vm_compute; [discriminate | reflexivity]))).
Defined.

Lemma stringToHex_surrogate_pair_witness :
  stringToHex [55357; 56832] = stringToHex [55357; 56833].
Proof.
  apply (proj1 (stringToHex_surrogate_pair 55357 56832 56833 []
                  ltac:(reflexivity) ltac:(reflexivity)
                  ltac:(reflexivity))).
Defined.

Lemma stringToHex_tokens_witness :
  forallb (fun c => isUpperHexDigit c || isSpace c)
          (stringToHex [20013; 55357; 56832]) = true.
Proof.
  apply (stringToHex_tokens [20013; 55357; 56832]).
  repeat constructor; unfold isCodeUnit; lia.
Defined.


Lemma searchIndex_lower_bound_witness :
  -1 <= searchIndex (current polling).
Proof.
  apply (searchIndex_lower_bound polling).
  apply (reach_step boot (Start DoPollTick) polling reach_boot).
  exact (step_start DoPollTick noonHost boot initialState
           [Invoked read_data]
           (Some (Suspended read_data pollTickResume)) eq_refl).
Defined.

Lemma connected_only_by_connect_witness :
  connected (finalState (failingEnv (js "timeout"))
               (handler DoSend
                        (connectedWith (js "Hi") (serial defaultConfig))))
  = true.
Proof.
  apply (proj2 (connected_only_by_connect
                  DoSend (failingEnv (js "timeout"))
                  (connectedWith (js "Hi") (serial defaultConfig))
                  ltac:(discriminate) ltac:(discriminate))).
Defined.

Lemma terminalContent_grows_witness :
  exists more,
    terminalContent
      (finalState specEnv
         (handler DoSend (connectedWith (js "Hi") (serial defaultConfig))))
    = terminalContent (connectedWith (js "Hi") (serial defaultConfig))
      ++ more.
Proof.
  apply (terminalContent_grows
           DoSend specEnv (connectedWith (js "Hi") (serial defaultConfig))
           ltac:(discriminate)).
Defined.
